(** * OHLCV trading system: ingest -> normalize -> batch -> transmit

    A shallow embedding of the C++ engine (src/engine/ingest,
    src/engine/ilp_writer and the callback of
    src/engine/alpha_vantage_pipeline_app.cpp) together with the
    properties of its specification and further properties of the code.

    Conventions
    - [std::uint64_t] and [size_t] values are [Z] in [0, 2^64); every
      arithmetic operation of the source on them is followed by [wrap64].
    - [std::string] is [string]; [find], [substr] and [operator[]] are the
      Standard Library's [index], [substring] and [get].
    - [double] is the Standard Library's [spec_float] at binary64
      (precision 53, emax 1024); comparisons are the IEEE ones.
    - [std::chrono] time points and durations are their tick counts in [Z]
      (microseconds). *)

From Stdlib Require Import ZArith String Ascii List Bool Lia Arith.
From Stdlib Require Import DecimalString DecimalN SpecFloat Sorted.
Import ListNotations.

Open Scope string_scope.
Open Scope Z_scope.

(* ================================================================== *)
(** * Machine integers *)

Module Cpp.

Definition two64 : Z := 2 ^ 64.

(** Reduction of a mathematical integer to [std::uint64_t] / [size_t]. *)
Definition wrap64 (z : Z) : Z := z mod two64.

(** Conversion of a 64-bit pattern to [long long] (two's complement). *)
Definition to_int64 (z : Z) : Z :=
  let u := wrap64 z in if u <? 2 ^ 63 then u else u - two64.

Definition uint64_max : Z := two64 - 1.
Definition int64_max : Z := 2 ^ 63 - 1.

(** [std::string::size()] as a [size_t]. *)
Definition size (s : string) : nat := String.length s.

(** The character [0x22] and the one-character string holding it. *)
Definition dquote : ascii := ascii_of_nat 34.
Definition quote : string := String dquote EmptyString.

(** [s.find(pat, pos)]; [None] is [npos]. *)
Definition find (s pat : string) (pos : nat) : option nat :=
  String.index pos pat s.

(** [s.find(c, pos)] for a single character. *)
Definition find_char (s : string) (c : ascii) (pos : nat) : option nat :=
  String.index pos (String c EmptyString) s.

(** [s.substr(pos, len)] for [pos <= s.size()]. *)
Definition substr (s : string) (pos len : nat) : string :=
  String.substring pos len s.

(** [s.substr(pos)]. *)
Definition substr_from (s : string) (pos : nat) : string :=
  String.substring pos (String.length s - pos) s.

(** [s.find(x) != npos]. *)
Definition contains (s pat : string) : bool :=
  match find s pat 0 with Some _ => true | None => false end.

(** [std::isspace] in the "C" locale: space, \t, \n, \v, \f, \r. *)
Definition isspace (c : ascii) : bool :=
  let n := nat_of_ascii c in
  (Nat.eqb n 32 || (Nat.leb 9 n && Nat.leb n 13))%bool.

(** Membership of a character in a character set given as a string. *)
Fixpoint mem_char (c : ascii) (set : string) : bool :=
  match set with
  | EmptyString => false
  | String d set' => (Ascii.eqb c d || mem_char c set')%bool
  end.

(** The loop [while (i < s.length() && p(s[i])) i++;], run with enough
    fuel to reach the end of the string. *)
Fixpoint scan_while (p : ascii -> bool) (fuel : nat) (s : string) (i : nat)
  : nat :=
  match fuel with
  | O => i
  | S fuel' =>
      match String.get i s with
      | Some c => if p c then scan_while p fuel' s (S i) else i
      | None => i
      end
  end.

Definition while_index (p : ascii -> bool) (s : string) (i : nat) : nat :=
  scan_while p (String.length s - i) s i.

(** [s.find_first_not_of(set)]. *)
Definition find_first_not_of (s set : string) : option nat :=
  let i := while_index (fun c => mem_char c set) s 0 in
  if Nat.ltb i (String.length s) then Some i else None.

(** [s.find_last_not_of(set)]: scan from the back. *)
Fixpoint last_not_of (set : string) (s : string) (n : nat) : option nat :=
  match n with
  | O => None
  | S n' =>
      match String.get n' s with
      | Some c => if mem_char c set then last_not_of set s n' else Some n'
      | None => last_not_of set s n'
      end
  end.

Definition find_last_not_of (s set : string) : option nat :=
  last_not_of set s (String.length s).

(** [s.erase(0, k)] where [k] may be [npos]. *)
Definition erase_prefix (s : string) (k : option nat) : string :=
  match k with
  | Some k => substr_from s k
  | None => EmptyString
  end.

(** [s.erase(k + 1)] where [k] may be [npos] ([npos + 1] wraps to 0). *)
Definition erase_after (s : string) (k : option nat) : string :=
  match k with
  | Some k => substr s 0 (S k)
  | None => EmptyString
  end.

(** [std::to_string] of an unsigned 64-bit integer. *)
Definition to_string_u64 (z : Z) : string :=
  NilEmpty.string_of_uint (N.to_uint (Z.to_N z)).

(** [std::vector::push_back]. *)
Definition push_back {A : Type} (v : list A) (x : A) : list A :=
  (v ++ [x])%list.

(** [std::string::empty()]. *)
Definition empty (s : string) : bool :=
  match s with EmptyString => true | String _ _ => false end.

(** The [k] low decimal digits of [z], most significant first. *)
Fixpoint digits_fixed (k : nat) (z : Z) : string :=
  match k with
  | O => EmptyString
  | S k' =>
      digits_fixed k' (z / 10)
        ++ String (ascii_of_nat (48 + Z.to_nat (z mod 10))) EmptyString
  end.

End Cpp.

(* ================================================================== *)
(** * IEEE binary64 *)

Module Double.

Definition double : Type := spec_float.

Definition prec : Z := 53.
Definition emax : Z := 1024.

(** The double nearest to [m * 2^e]. *)
Definition of_scaled (m e : Z) : double := binary_normalize prec emax m e false.

Definition of_Z (z : Z) : double := of_scaled z 0.

(** [a != b], [a == b], [a > b] on doubles. *)
Definition eqb (a b : double) : bool := SFeqb a b.
Definition neb (a b : double) : bool := negb (SFeqb a b).
Definition gtb (a b : double) : bool := SFltb b a.

(** Nearest integer to [p / q] (for [q > 0]), ties to even. *)
Definition round_half_even (p q : Z) : Z :=
  let d := p / q in
  let r := p mod q in
  match Z.compare (2 * r) q with
  | Lt => d
  | Gt => d + 1
  | Eq => if Z.even d then d else d + 1
  end.

(** Magnitude of a finite double times 10^6, rounded to an integer. *)
Definition micro_units (m : positive) (e : Z) : Z :=
  if 0 <=? e
  then Z.pos m * 2 ^ e * 1000000
  else round_half_even (Z.pos m * 1000000) (2 ^ (- e)).

Definition fixed6 (neg : bool) (u : Z) : string :=
  (if neg then "-" else EmptyString)
    ++ Cpp.to_string_u64 (u / 1000000) ++ "."
    ++ Cpp.digits_fixed 6 (u mod 1000000).

(** [std::to_string(double)], that is [printf("%f")]: six decimals. *)
Definition to_string (d : double) : string :=
  match d with
  | S754_nan => "nan"
  | S754_infinity s => if s then "-inf" else "inf"
  | S754_zero s => fixed6 s 0
  | S754_finite s m e => fixed6 s (micro_units m e)
  end.

End Double.

(* ================================================================== *)
(** * tick_data.h *)

Module Tick.

Import Cpp.

Record TickData : Type := mkTick {
  timestamp_us : Z;            (* std::uint64_t, microseconds since epoch *)
  symbol : string;
  exchange : string;
  price : Double.double;
  quantity : Z;                (* std::uint64_t *)
  side : ascii;                (* 'B' = buy, 'S' = sell *)
  receive_time_us : Z;         (* std::uint64_t *)
  process_time_us : Z          (* std::uint64_t *)
}.

(** The five-argument constructor; [now] is the reading of
    [system_clock::now()] it takes, in microseconds. *)
Definition make_tick (now : Z) (sym exch : string) (p : Double.double)
    (qty : Z) (s : ascii) : TickData :=
  {| timestamp_us := wrap64 now;
     symbol := sym;
     exchange := exch;
     price := p;
     quantity := qty;
     side := s;
     receive_time_us := wrap64 now;
     process_time_us := 0 |}.

Definition set_timestamp_us (t : TickData) (ts : Z) : TickData :=
  {| timestamp_us := ts;
     symbol := symbol t;
     exchange := exchange t;
     price := price t;
     quantity := quantity t;
     side := side t;
     receive_time_us := receive_time_us t;
     process_time_us := process_time_us t |}.

Definition set_receive_time_us (t : TickData) (ts : Z) : TickData :=
  {| timestamp_us := timestamp_us t;
     symbol := symbol t;
     exchange := exchange t;
     price := price t;
     quantity := quantity t;
     side := side t;
     receive_time_us := ts;
     process_time_us := process_time_us t |}.

Definition set_process_time_us (t : TickData) (ts : Z) : TickData :=
  {| timestamp_us := timestamp_us t;
     symbol := symbol t;
     exchange := exchange t;
     price := price t;
     quantity := quantity t;
     side := side t;
     receive_time_us := receive_time_us t;
     process_time_us := ts |}.

(** [TickData::to_ilp_format]. *)
Definition to_ilp_format (t : TickData) : string :=
  "trades,symbol=" ++ symbol t ++ ",exchange=" ++ exchange t
    ++ " price=" ++ Double.to_string (price t)
    ++ ",quantity=" ++ to_string_u64 (quantity t)
    ++ ",side=" ++ quote ++ String (side t) EmptyString ++ quote
    ++ " " ++ to_string_u64 (wrap64 (timestamp_us t * 1000)).

End Tick.

(* ================================================================== *)
(** * A state monad for the stateful components *)

Module St.

Definition State (S A : Type) : Type := S -> A * S.

Definition ret {S A : Type} (a : A) : State S A := fun s => (a, s).

Definition bind {S A B : Type} (m : State S A) (k : A -> State S B)
  : State S B :=
  fun s => let (a, s') := m s in k a s'.

Definition get {S : Type} : State S S := fun s => (s, s).

Definition put {S : Type} (s : S) : State S unit := fun _ => (tt, s).

Definition modify {S : Type} (f : S -> S) : State S unit :=
  fun s => (tt, f s).

(** The state after running [m]. *)
Definition exec {S A : Type} (m : State S A) (s : S) : S := snd (m s).

(** The value returned by running [m]. *)
Definition eval {S A : Type} (m : State S A) (s : S) : A := fst (m s).

End St.

Declare Scope state_scope.
Delimit Scope state_scope with state.
Notation "x <- m ;; k" := (St.bind m (fun x => k))
  (at level 61, m at next level, right associativity) : state_scope.
Notation "m ;;; k" := (St.bind m (fun _ => k))
  (at level 61, right associativity) : state_scope.

(* ================================================================== *)
(** * alpha_vantage_client.cpp: the response extractor *)

Module Extractor.

Import Cpp.

(** The characters that end an unquoted value: [,], [}] and []]. *)
Definition is_delimiter (c : ascii) : bool :=
  let n := nat_of_ascii c in
  (Nat.eqb n 44 || Nat.eqb n 125 || Nat.eqb n 93)%bool.

(** The set [" \t\r\n"] used by the trimming code. *)
Definition trim_set : string :=
  String (ascii_of_nat 32) (String (ascii_of_nat 9)
    (String (ascii_of_nat 13) (String (ascii_of_nat 10) EmptyString))).

(** [s[i]]; reading at [s.size()] gives the terminating zero. *)
Definition char_at (s : string) (i : nat) : ascii :=
  match String.get i s with
  | Some c => c
  | None => zero
  end.

(** The marker searched for: the key between quotes, then a colon. *)
Definition search_key_of (key : string) : string :=
  quote ++ key ++ quote ++ ":".

Definition extract_json_value (json key : string) : string :=
  let search_key := search_key_of key in
  match find json search_key 0 with
  | None => EmptyString
  | Some start =>
      let start := (start + size search_key)%nat in
      (* Skip whitespace *)
      let start := while_index isspace json start in
      if Nat.leb (size json) start then EmptyString
      else if Ascii.eqb (char_at json start) dquote then
        (* Handle quoted strings *)
        let start := S start in
        match find_char json dquote start with
        | None => EmptyString
        | Some end_ => substr json start (end_ - start)
        end
      else
        (* Handle unquoted values *)
        let end_ := while_index (fun c => negb (is_delimiter c)) json start in
        let value := substr json start (end_ - start) in
        let value := erase_prefix value (find_first_not_of value trim_set) in
        erase_after value (find_last_not_of value trim_set)
  end.

End Extractor.

(* ================================================================== *)
(** * The system clock *)

Module Chrono.

(** The clock as the program sees it: the successive readings of
    [system_clock::now()], in microseconds since the epoch, and how many
    of them have been taken. *)
Record Clock : Type := mkClock {
  reading : nat -> Z;
  reads : nat
}.

(** [duration_cast<microseconds>(system_clock::now().time_since_epoch())
    .count()]. *)
Definition now : St.State Clock Z :=
  fun c => (reading c (reads c), mkClock (reading c) (S (reads c))).

(** Twenty-four hours, in microseconds. *)
Definition hours24 : Z := 24 * 3600 * 1000000.

End Chrono.

(* ================================================================== *)
(** * alpha_vantage_client.cpp: parsing a response into ticks *)

Module Parser.

Import Cpp Tick Extractor Chrono.

Section WithNumericConversions.

(** [std::stod] and [std::stoull]; [None] stands for the exception they
    throw ([std::invalid_argument] or [std::out_of_range]). *)
Variable stod : string -> option Double.double.
Variable stoull : string -> option Z.

(** The five numeric fields, converted in the order of the [try] block;
    [None] when one conversion throws. *)
Definition convert_fields (open_str high_str low_str close_str volume_str
    : string) : option (Double.double * Double.double * Double.double
                        * Double.double * Z) :=
  match stod open_str with
  | None => None
  | Some open_price =>
  match stod high_str with
  | None => None
  | Some high_price =>
  match stod low_str with
  | None => None
  | Some low_price =>
  match stod close_str with
  | None => None
  | Some close_price =>
  match stoull volume_str with
  | None => None
  | Some v => Some (open_price, high_price, low_price, close_price, wrap64 v)
  end end end end end.

(** Exchange suffix of a symbol: ["RELIANCE.BSE"] gives
    [("RELIANCE", "BSE")]; the exchange defaults to ["BSE"]. *)
Definition split_symbol (symbol : string) : string * string :=
  match find_char symbol "." 0 with
  | Some dot_pos => (substr symbol 0 dot_pos, substr_from symbol (S dot_pos))
  | None => (symbol, "BSE")
  end.

(** A tick built by the constructor (which reads the clock) and then given
    its fabricated timestamp. *)
Definition stamped_tick (sym exch : string) (p : Double.double) (qty : Z)
    (s : ascii) (ts : Z) : St.State Clock TickData :=
  (ctor_now <- now ;;
   St.ret (set_timestamp_us (make_tick ctor_now sym exch p qty s)
             (wrap64 ts)))%state.

(** Lines 308-346: the ticks synthesised from the converted fields,
    appended to [ticks]. *)
Definition synthesize_ticks (symbol : string)
    (open_price high_price low_price close_price : Double.double)
    (volume : Z) (ticks : list TickData) : St.State Clock (list TickData) :=
  (let (clean_symbol, exchange) := split_symbol symbol in
   timestamp_us <- now ;;
   (* Open trade *)
   open_tick <- stamped_tick clean_symbol exchange open_price (volume / 4)
                  "B" timestamp_us ;;
   let ticks := push_back ticks open_tick in
   (* High trade (if different from open) *)
   ticks <- (if Double.neb high_price open_price
             then high_tick <- stamped_tick clean_symbol exchange high_price
                                 (volume / 4) "B" (timestamp_us + 1) ;;
                  St.ret (push_back ticks high_tick)
             else St.ret ticks) ;;
   (* Low trade (if different from others) *)
   ticks <- (if (Double.neb low_price open_price
                 && Double.neb low_price high_price)%bool
             then low_tick <- stamped_tick clean_symbol exchange low_price
                                (volume / 4) "S" (timestamp_us + 2) ;;
                  St.ret (push_back ticks low_tick)
             else St.ret ticks) ;;
   (* Close trade *)
   close_tick <- stamped_tick clean_symbol exchange close_price (volume / 4)
                   (if Double.gtb close_price open_price then "B" else "S")
                   (timestamp_us + 3) ;;
   St.ret (push_back ticks close_tick))%state%char.

(** Lines 241-275: the block [{...}] of the first dated entry after the
    ["Time Series (Daily)"] key. *)
Definition locate_data_block (json_response : string) : option string :=
  match find json_response (quote ++ "Time Series (Daily)" ++ quote) 0 with
  | None => None
  | Some time_series_pos =>
  match find json_response (quote ++ "20") time_series_pos with
  | None => None
  | Some date_start =>
  match find json_response quote (S date_start) with
  | None => None
  | Some date_end =>
  match find json_response "{" date_end with
  | None => None   (* then [data_end] is [npos] as well *)
  | Some data_start =>
  match find json_response "}" data_start with
  | None => None
  | Some data_end =>
      Some (substr json_response data_start (data_end - data_start + 1))
  end end end end end.

(** [AlphaVantageClient::parse_time_series_response]: the result and the
    contents of the output vector [ticks] after the call. *)
Definition parse_time_series_response (json_response symbol : string)
    (ticks : list TickData) : St.State Clock (bool * list TickData) :=
  if empty json_response then St.ret (false, ticks)
  (* Check for error messages *)
  else if (contains json_response "Error Message"
           || contains json_response "Invalid API call")%bool
  then St.ret (false, ticks)
  (* Check for rate limit message *)
  else if (contains json_response "Thank you for using Alpha Vantage"
           && contains json_response "call frequency")%bool
  then St.ret (false, ticks)
  else
    match locate_data_block json_response with
    | None => St.ret (false, ticks)
    | Some data_block =>
        let open_str := extract_json_value data_block "1. open" in
        let high_str := extract_json_value data_block "2. high" in
        let low_str := extract_json_value data_block "3. low" in
        let close_str := extract_json_value data_block "4. close" in
        let volume_str := extract_json_value data_block "5. volume" in
        if (empty open_str || empty close_str || empty volume_str)%bool
        then St.ret (false, ticks)
        else
          match convert_fields open_str high_str low_str close_str
                  volume_str with
          | None => St.ret (false, ticks)
          | Some (open_price, high_price, low_price, close_price, volume) =>
              (ticks' <- synthesize_ticks symbol open_price high_price
                           low_price close_price volume ticks ;;
               St.ret (true, ticks'))%state
          end
    end.

End WithNumericConversions.

End Parser.

(* ================================================================== *)
(** * alpha_vantage_client.cpp: rate limiter, latency metrics, fetch loop *)

Module Client.

Import Cpp Tick Chrono.

(** [AlphaVantageClient::LatencyMetrics]; the three latencies are
    [std::chrono::microseconds] (a [long long] count), the two counters
    are [size_t]. *)
Record LatencyMetrics : Type := mkMetrics {
  avg_api_latency : Z;
  max_api_latency : Z;
  min_api_latency : Z;
  request_count : Z;
  error_count : Z
}.

(** The default member initialisers. *)
Definition initial_metrics : LatencyMetrics :=
  {| avg_api_latency := 0;
     max_api_latency := 0;
     min_api_latency := int64_max;     (* microseconds::max() *)
     request_count := 0;
     error_count := 0 |}.

(** The part of an [AlphaVantageClient] the fetch loop updates. *)
Record ClientState : Type := mkClient {
  request_times_ : list Z;
  metrics_ : LatencyMetrics
}.

Definition initial_client : ClientState :=
  {| request_times_ := []; metrics_ := initial_metrics |}.

Definition MAX_REQUESTS_PER_DAY : Z := 25.

(** The counting loop of [can_make_request]; the counter is bounded by
    the size of the vector and cannot wrap. *)
Definition count_recent (twenty_four_hours_ago : Z) (times : list Z) : Z :=
  fold_left
    (fun recent_requests time =>
       if time >? twenty_four_hours_ago
       then recent_requests + 1 else recent_requests)
    times 0.

(** [AlphaVantageClient::can_make_request] (a [const] member function);
    [now] is its reading of the system clock. *)
Definition can_make_request (now : Z) : St.State ClientState bool :=
  (st <- St.get ;;
   let twenty_four_hours_ago := now - hours24 in
   let recent_requests :=
     count_recent twenty_four_hours_ago (request_times_ st) in
   St.ret (recent_requests <? MAX_REQUESTS_PER_DAY))%state.

(** [AlphaVantageClient::record_request]. *)
Definition record_request (now : Z) : St.State ClientState unit :=
  St.modify (fun st =>
    let times := push_back (request_times_ st) now in
    let twenty_four_hours_ago := now - hours24 in
    (* erase(remove_if(..., time <= twenty_four_hours_ago)) *)
    {| request_times_ :=
         filter (fun time => negb (time <=? twenty_four_hours_ago)) times;
       metrics_ := metrics_ st |}).

(** The metrics block of [data_fetch_loop] (lines 392-418) on the metrics
    alone.  [avg.count() * (request_count - 1)] mixes [long long] and
    [size_t], so the sum and the quotient are taken in unsigned 64-bit
    arithmetic and the quotient is converted back to [long long]. *)
Definition update_metrics (response_empty : bool) (latency : Z)
    (m : LatencyMetrics) : LatencyMetrics :=
  let request_count' := wrap64 (request_count m + 1) in
  if response_empty then
    {| avg_api_latency := avg_api_latency m;
       max_api_latency := max_api_latency m;
       min_api_latency := min_api_latency m;
       request_count := request_count';
       error_count := wrap64 (error_count m + 1) |}
  else
    let total_latency :=
      wrap64 (wrap64 (avg_api_latency m) * wrap64 (request_count' - 1)) in
    let avg' :=
      to_int64 (wrap64 (total_latency + wrap64 latency) / request_count') in
    {| avg_api_latency := avg';
       max_api_latency :=
         if latency >? max_api_latency m then latency
         else max_api_latency m;
       min_api_latency :=
         if latency <? min_api_latency m then latency
         else min_api_latency m;
       request_count := request_count';
       error_count := error_count m |}.

Definition update_latency_metrics (response_empty : bool) (latency : Z)
  : St.State ClientState unit :=
  St.modify (fun st =>
    {| request_times_ := request_times_ st;
       metrics_ := update_metrics response_empty latency (metrics_ st) |}).

(** What the outside world supplies to one iteration of the symbol loop:
    the clock readings of the rate limiter, the HTTP response and the
    measured latency of the request. *)
Record Request : Type := mkRequest {
  check_time : Z;       (* [now] inside [can_make_request] *)
  response : string;    (* result of [make_http_request] *)
  latency_us : Z;       (* [end_time - start_time] in microseconds *)
  record_time : Z       (* [now] inside [record_request] *)
}.

(** One iteration of the symbol loop up to the metrics update; [false]
    when the rate limit makes the loop [break]. *)
Definition fetch_step (r : Request) : St.State ClientState bool :=
  (allowed <- can_make_request (check_time r) ;;
   if allowed then
     record_request (record_time r) ;;;
     update_latency_metrics (empty (response r)) (latency_us r) ;;;
     St.ret true
   else St.ret false)%state.

(** The symbol loop over the successive requests: it stops at the first
    refusal of the rate limiter. *)
Fixpoint fetch_cycle (rs : list Request) : St.State ClientState unit :=
  match rs with
  | [] => St.ret tt
  | r :: rs' =>
      (continue <- fetch_step r ;;
       if continue then fetch_cycle rs' else St.ret tt)%state
  end.

(** [AlphaVantageClient::add_symbol] on the vector [symbols_]. *)
Definition add_symbol (symbol : string) (symbols_ : list string)
  : list string :=
  if existsb (String.eqb symbol) symbols_   (* std::find(...) != end() *)
  then symbols_
  else push_back symbols_ symbol.

End Client.

(* ================================================================== *)
(** * ilp_writer.cpp *)

Module Writer.

Import Cpp Tick.

Record ILPConfig : Type := mkConfig {
  questdb_host : string;
  questdb_port : Z;
  batch_size : Z            (* size_t *)
}.

Record ILPStats : Type := mkStats {
  lines_sent : Z;           (* size_t *)
  batches_sent : Z;         (* size_t *)
  errors : Z                (* size_t *)
}.

Record ILPWriter : Type := mkWriter {
  config_ : ILPConfig;
  stats_ : ILPStats;
  current_batch_ : list string;
  running_ : bool;
  socket_fd_ : Z
}.

(** The surroundings of the writer: what the [k]-th call of [send]
    returns, the payloads handed to [send] so far, and the batch sizes
    reported on standard output by the lines
    ["Sent batch of <n> ticks in <d> microseconds"]. *)
Record Env : Type := mkEnv {
  send_result : nat -> Z;
  sent_payloads : list string;
  reported_batches : list Z
}.

(** The writer together with its surroundings. *)
Definition World : Type := (ILPWriter * Env)%type.

(** [vector::size()] as a [size_t]. *)
Definition vsize {A : Type} (v : list A) : Z := Z.of_nat (List.length v).

(** [send(socket_fd_, data, length, 0)]. *)
Definition sys_send (data : string) : St.State Env Z :=
  fun e =>
    (send_result e (List.length (sent_payloads e)),
     {| send_result := send_result e;
        sent_payloads := push_back (sent_payloads e) data;
        reported_batches := reported_batches e |}).

(** [std::cout << "Sent batch of " << n << " ticks in " ...]. *)
Definition report_batch (n : Z) : St.State Env unit :=
  St.modify (fun e =>
    {| send_result := send_result e;
       sent_payloads := sent_payloads e;
       reported_batches := push_back (reported_batches e) n |}).

(** The payload: every line followed by a newline. *)
Fixpoint join_lines (lines : list string) : string :=
  match lines with
  | [] => EmptyString
  | line :: rest => line ++ String (ascii_of_nat 10) (join_lines rest)
  end.

(** [ILPWriter::send_batch]. *)
Definition send_batch (socket_fd : Z) (lines : list string)
  : St.State Env bool :=
  if socket_fd <? 0 then St.ret false
  else
    (let batch_data := join_lines lines in
     sent <- sys_send batch_data ;;
     if sent <? 0 then St.ret false else St.ret true)%state.

Definition with_stats (w : ILPWriter) (st : ILPStats) : ILPWriter :=
  {| config_ := config_ w; stats_ := st; current_batch_ := current_batch_ w;
     running_ := running_ w; socket_fd_ := socket_fd_ w |}.

Definition with_batch (w : ILPWriter) (b : list string) : ILPWriter :=
  {| config_ := config_ w; stats_ := stats_ w; current_batch_ := b;
     running_ := running_ w; socket_fd_ := socket_fd_ w |}.

(** The counters after a send of [n] lines. *)
Definition count_send (success : bool) (n : Z) (st : ILPStats) : ILPStats :=
  if success
  then {| lines_sent := wrap64 (lines_sent st + n);
          batches_sent := wrap64 (batches_sent st + 1);
          errors := errors st |}
  else {| lines_sent := lines_sent st;
          batches_sent := batches_sent st;
          errors := wrap64 (errors st + 1) |}.

(** [ILPWriter::flush]. *)
Definition flush : St.State World unit :=
  fun '(w, env) =>
    if (match current_batch_ w with [] => true | _ :: _ => false end
        || negb (running_ w))%bool
    then (tt, (w, env))
    else
      let (success, env) :=
        send_batch (socket_fd_ w) (current_batch_ w) env in
      let w := with_stats w
                 (count_send success (vsize (current_batch_ w)) (stats_ w)) in
      let (_, env) := report_batch (vsize (current_batch_ w)) env in
      (tt, (with_batch w [], env)).

(** [ILPWriter::write_tick]. *)
Definition write_tick (tick : TickData) : St.State World unit :=
  fun '(w, env) =>
    if negb (running_ w) then (tt, (w, env))
    else
      (* Convert tick to ILP format and add to batch *)
      let ilp_line := to_ilp_format tick in
      let w := with_batch w (push_back (current_batch_ w) ilp_line) in
      (* Send batch if it's full *)
      if vsize (current_batch_ w) >=? batch_size (config_ w)
      then flush (w, env)
      else (tt, (w, env)).

(** [ILPWriter::stop]. *)
Definition stop : St.State World unit :=
  fun '(w, env) =>
    if negb (running_ w) then (tt, (w, env))
    else
      (* Flush any remaining data *)
      let '(_, (w, env)) := flush (w, env) in
      (tt, ({| config_ := config_ w; stats_ := stats_ w;
               current_batch_ := current_batch_ w;
               running_ := false;
               socket_fd_ := if socket_fd_ w >=? 0 then -1 else socket_fd_ w |},
            env)).

(** A writer as [start()] leaves it: connected, running, nothing pending,
    all counters zero. *)
Definition started (cfg : ILPConfig) (fd : Z) : ILPWriter :=
  {| config_ := cfg;
     stats_ := {| lines_sent := 0; batches_sent := 0; errors := 0 |};
     current_batch_ := [];
     running_ := true;
     socket_fd_ := fd |}.

(** A sequence of [write_tick] calls. *)
Fixpoint write_ticks (ticks : list TickData) : St.State World unit :=
  match ticks with
  | [] => St.ret tt
  | t :: rest => (write_tick t ;;; write_ticks rest)%state
  end.

(** The constructor [ILPWriter::ILPWriter(config)]. *)
Definition constructed (cfg : ILPConfig) : ILPWriter :=
  {| config_ := cfg;
     stats_ := {| lines_sent := 0; batches_sent := 0; errors := 0 |};
     current_batch_ := [];
     running_ := false;
     socket_fd_ := -1 |}.

(** What the system calls of [start] answer: [socket], [inet_pton] on the
    configured host, whether [gethostbyname] finds it, and [connect]. *)
Record Connect : Type := mkConnect {
  socket_answer : Z;
  inet_pton_answer : Z;
  host_found : bool;
  connect_answer : Z
}.

Definition with_fd (w : ILPWriter) (fd : Z) : ILPWriter :=
  {| config_ := config_ w; stats_ := stats_ w;
     current_batch_ := current_batch_ w;
     running_ := running_ w; socket_fd_ := fd |}.

Definition with_running (w : ILPWriter) (r : bool) : ILPWriter :=
  {| config_ := config_ w; stats_ := stats_ w;
     current_batch_ := current_batch_ w;
     running_ := r; socket_fd_ := socket_fd_ w |}.

(** [ILPWriter::start].  On the two failure paths after the socket was
    created the descriptor is closed but [socket_fd_] keeps its value. *)
Definition start (c : Connect) : St.State ILPWriter bool :=
  fun w =>
    if running_ w then (false, w)
    else
      (* Create socket connection to QuestDB *)
      let w := with_fd w (socket_answer c) in
      if socket_fd_ w <? 0 then (false, w)
      else if (negb (String.eqb (questdb_host (config_ w)) "localhost")
               && (inet_pton_answer c <=? 0)
               && negb (host_found c))%bool
      then (false, w)
      else if connect_answer c <? 0 then (false, w)
      else (true, with_running w true).

(** The demo's use of the writer (ilp_writer/main.cpp): the ticks are
    written one by one, then [flush] and [stop] are called. *)
Definition write_all_and_stop (ticks : list TickData) : St.State World unit :=
  (write_ticks ticks ;;; flush ;;; stop)%state.

End Writer.

(* ================================================================== *)
(** * alpha_vantage_pipeline_app.cpp and the delivery of parsed ticks *)

Module Pipeline.

Import Cpp Tick Chrono Parser Writer.

(** What the pipeline works on: the system clock, the writer with its
    surroundings, and the two counters of [main]. *)
Record App : Type := mkApp {
  clock : Clock;
  world : World;
  ticks_received : Z;       (* std::atomic<size_t> *)
  ticks_written : Z         (* std::atomic<size_t> *)
}.

Definition with_clock (a : App) (c : Clock) : App :=
  {| clock := c; world := world a;
     ticks_received := ticks_received a;
     ticks_written := ticks_written a |}.

(** [TickCallback], a [std::function] that may be unset. *)
Definition TickCallback : Type := option (TickData -> St.State App unit).

(** [MarketDataIngest::invoke_callback]. *)
Definition invoke_callback (tick_callback_ : TickCallback) (tick : TickData)
  : St.State App unit :=
  match tick_callback_ with
  | Some callback => callback tick
  | None => St.ret tt
  end.

(** The callback installed by [main] in alpha_vantage_pipeline_app.cpp
    (lines 101-130); the latencies it prints are not kept. *)
Definition on_tick (tick : TickData) : St.State App unit :=
  fun a =>
    let received := wrap64 (ticks_received a + 1) in
    (* Set process time for latency measurement *)
    let (now_us, clk) := now (clock a) in
    let processed_tick := set_process_time_us tick (wrap64 now_us) in
    (* Write to QuestDB *)
    let (_, x) := write_tick processed_tick (world a) in
    (tt, {| clock := clk; world := x;
            ticks_received := received;
            ticks_written := wrap64 (ticks_written a + 1) |}).

(** The loop that sends the parsed ticks to the callback
    (alpha_vantage_client.cpp, lines 427-434). *)
Fixpoint deliver_ticks (tick_callback_ : TickCallback) (ticks : list TickData)
  : St.State App unit :=
  match ticks with
  | [] => St.ret tt
  | tick :: rest =>
      fun a =>
        let (t, clk) := now (clock a) in
        let tick := set_receive_time_us tick (wrap64 t) in
        let (_, a) := invoke_callback tick_callback_ tick (with_clock a clk) in
        deliver_ticks tick_callback_ rest a
  end.

Section WithNumericConversions.

Variable stod : string -> option Double.double.
Variable stoull : string -> option Z.

(** What [data_fetch_loop] does with a response (lines 420-436). *)
Definition handle_response (tick_callback_ : TickCallback)
    (response symbol : string) : St.State App unit :=
  fun a =>
    if negb (empty response) then
      let '((parsed, ticks), clk) :=
        parse_time_series_response stod stoull response symbol [] (clock a) in
      if parsed then deliver_ticks tick_callback_ ticks (with_clock a clk)
      else (tt, with_clock a clk)
    else (tt, a).

End WithNumericConversions.

End Pipeline.

(* ================================================================== *)
(** * Concrete inputs used to run the embedding *)

Module Fixture.

Import Cpp.

(** Responses are written with ['] where the payload has a double quote. *)
Fixpoint json (s : string) : string :=
  match s with
  | EmptyString => EmptyString
  | String c s' =>
      String (if Ascii.eqb c (ascii_of_nat 39) then dquote else c) (json s')
  end.

Definition is_digit (c : ascii) : bool :=
  let n := nat_of_ascii c in (Nat.leb 48 n && Nat.leb n 57)%bool.

Definition digit_value (c : ascii) : Z := Z.of_nat (nat_of_ascii c - 48).

(** The leading run of decimal digits of [s]: its value continued from
    [acc], the number of digits read and the rest of the string. *)
Fixpoint read_digits (s : string) (acc : Z) (n : nat) : Z * nat * string :=
  match s with
  | String c s' =>
      if is_digit c then read_digits s' (10 * acc + digit_value c) (S n)
      else (acc, n, s)
  | EmptyString => (acc, n, s)
  end.

Fixpoint skip_spaces (s : string) : string :=
  match s with
  | String c s' => if isspace c then skip_spaces s' else s
  | EmptyString => s
  end.

(** [std::stoull] in base 10 on an unsigned digit string: leading
    whitespace is skipped, text after the digits is ignored; no digit, or
    a value above [ULLONG_MAX], throws. *)
Definition stoull (s : string) : option Z :=
  match read_digits (skip_spaces s) 0 0 with
  | (_, O, _) => None
  | (v, S _, _) => if v <=? uint64_max then Some v else None
  end.

(** The double nearest to [n / 10^k] for [n > 0] (ties to even): the
    quotient is taken with 80 guard bits and a sticky bit. *)
Definition nearest_ratio (n : Z) (k : nat) : Double.double :=
  let d := 10 ^ Z.of_nat k in
  let s := Z.log2 d + 80 in
  let q := (n * 2 ^ s) / d in
  let sticky := if (n * 2 ^ s) mod d =? 0 then 0 else 1 in
  Double.of_scaled (2 * q + sticky) (- (s + 1)).

(** [std::stod] on plain decimal literals [digits[.digits]] with an
    optional leading [-]: leading whitespace is skipped and text after the
    number is ignored; without a digit the conversion throws.  Values
    outside the range of normal doubles are not covered and reported as
    thrown. *)
Definition stod (s : string) : option Double.double :=
  let s := skip_spaces s in
  let (neg, s) :=
    match s with
    | String c s' => if Ascii.eqb c "-" then (true, s') else (false, s)
    | EmptyString => (false, s)
    end in
  let '(ip, ni, s) := read_digits s 0 0 in
  let '(n, nf) :=
    match s with
    | String c s' =>
        if Ascii.eqb c "." then
          let '(v, k, _) := read_digits s' ip 0 in (v, k)
        else (ip, O)
    | EmptyString => (ip, O)
    end in
  match (ni + nf)%nat with
  | O => None
  | S _ =>
      if n =? 0 then Some (S754_zero neg)
      else
        match nearest_ratio n nf with
        | S754_finite _ m e =>
            if Z.pos (digits2_pos m) =? Double.prec
            then Some (S754_finite neg m e) else None
        | _ => None
        end
  end.

(** A daily time-series response in the provider's shape, whose most
    recent entry has open 100, high 105, low 100, close 102 and volume
    4000. *)
Definition daily_response : string :=
  json ("{ 'Meta Data': { '1. Information': 'Daily Prices', "
        ++ "'2. Symbol': 'RELIANCE.BSE', "
        ++ "'3. Last Refreshed': '2024-01-05' }, "
        ++ "'Time Series (Daily)': { "
        ++ "'2024-01-05': { '1. open': '100.0000', '2. high': '105.0000', "
        ++ "'3. low': '100.0000', '4. close': '102.0000', "
        ++ "'5. volume': '4000' }, "
        ++ "'2024-01-04': { '1. open': '98.5000', '2. high': '101.2500', "
        ++ "'3. low': '97.0000', '4. close': '99.7500', "
        ++ "'5. volume': '3100' } } }").

(** The provider's answer to an invalid call. *)
Definition error_response : string :=
  json ("{ 'Error Message': 'Invalid API call. Please retry or visit the "
        ++ "documentation for TIME_SERIES_DAILY.' }").

(** Surroundings in which the [k]-th [send] returns [results k], before
    anything was sent or printed. *)
Definition env_of (results : nat -> Z) : Writer.Env :=
  {| Writer.send_result := results;
     Writer.sent_payloads := [];
     Writer.reported_batches := [] |}.

(** A clock that reads [base], [base + 1], ... microseconds. *)
Definition clock_from (base : Z) : Chrono.Clock :=
  Chrono.mkClock (fun k => Z.of_nat k + base) O.

End Fixture.

(* ================================================================== *)
(** * Vocabulary of the properties *)

Module Spec.

Import Cpp Tick Extractor Chrono Parser Client Writer.

(** ** Machine integers and decimal printing *)

(** Reading back a decimal numeral. *)
Definition read_u64 (s : string) : option Z :=
  match NilEmpty.uint_of_string s with
  | Some d => Some (Z.of_N (N.of_uint d))
  | None => None
  end.

(** ** String search and scanning *)

(** [pat] occurs in [s] at offset [n]. *)
Definition occurs_at (n : nat) (pat s : string) : Prop :=
  exists pre post, s = pre ++ pat ++ post /\ String.length pre = n.

(** [pat] occurs somewhere in [s]. *)
Definition occurs (pat s : string) : Prop :=
  exists pre post, s = pre ++ pat ++ post.

(** The longest prefix of [s] whose characters satisfy [p], and the rest. *)
Fixpoint take_while (p : ascii -> bool) (s : string) : string :=
  match s with
  | String c s' => if p c then String c (take_while p s') else EmptyString
  | EmptyString => EmptyString
  end.

Fixpoint drop_while (p : ascii -> bool) (s : string) : string :=
  match s with
  | String c s' => if p c then drop_while p s' else s
  | EmptyString => EmptyString
  end.

(** Every character of [s] satisfies [p]. *)
Fixpoint all_chars (p : ascii -> bool) (s : string) : bool :=
  match s with
  | String c s' => (p c && all_chars p s')%bool
  | EmptyString => true
  end.

(** The first character of [s], if any, satisfies [p]. *)
Definition starts_with (p : ascii -> bool) (s : string) : bool :=
  match s with
  | String c _ => p c
  | EmptyString => false
  end.

(** ** The response extractor *)

(** Character classes used by the extractor. *)
Definition not_quote (c : ascii) : bool := negb (Ascii.eqb c dquote).
Definition not_delimiter (c : ascii) : bool := negb (is_delimiter c).
Definition in_trim_set (c : ascii) : bool := mem_char c trim_set.

(** The last character of [s], if any, satisfies [p]. *)
Fixpoint ends_with (p : ascii -> bool) (s : string) : bool :=
  match s with
  | EmptyString => false
  | String c EmptyString => p c
  | String _ s' => ends_with p s'
  end.

(** ** Serialisation of a tick *)

(** The tick of the end-to-end scenario. *)
Definition reliance_tick : TickData :=
  {| timestamp_us := 1700000000000000;
     symbol := "RELIANCE";
     exchange := "BSE";
     price := Double.of_scaled 5001 (-1);      (* 2500.5 *)
     quantity := 10;
     side := "B";
     receive_time_us := 1700000000000000;
     process_time_us := 0 |}.

(** A tick stamped one microsecond after the last instant whose
    nanosecond count fits in 64 bits. *)
Definition late_tick : TickData :=
  {| timestamp_us := 18446744073709552;
     symbol := "RELIANCE";
     exchange := "BSE";
     price := Double.of_scaled 5001 (-1);
     quantity := 10;
     side := "B";
     receive_time_us := 18446744073709552;
     process_time_us := 0 |}.

(** The largest microsecond timestamp whose nanosecond count fits. *)
Definition max_exact_timestamp_us : Z := 18446744073709551.

(** The layout of an ILP line around its fields. *)
Definition ilp_line (sym exch price_s qty_s : string) (sd : ascii)
    (ts_s : string) : string :=
  "trades,symbol=" ++ sym ++ ",exchange=" ++ exch
    ++ " price=" ++ price_s ++ ",quantity=" ++ qty_s
    ++ ",side=" ++ quote ++ String sd EmptyString ++ quote
    ++ " " ++ ts_s.

(** ** The batched line writer *)

(** Observations on a writer and its surroundings. *)
Definition pending (x : World) : Z := vsize (current_batch_ (fst x)).
Definition stats (x : World) : ILPStats := stats_ (fst x).
Definition reports (x : World) : list Z := reported_batches (snd x).
Definition payloads (x : World) : list string := sent_payloads (snd x).

(** The send of the next flush succeeds: the descriptor is valid and the
    next [send] call does not return a negative value. *)
Definition send_succeeds (x : World) : bool :=
  ((0 <=? socket_fd_ (fst x))
   && (0 <=? send_result (snd x) (List.length (payloads x))))%bool.

(** The state in which [write_tick] keeps a running writer between two
    calls. *)
Definition between_writes (B : Z) (x : World) : Prop :=
  running_ (fst x) = true
  /\ batch_size (config_ (fst x)) = B
  /\ pending x < B.

(** After [k] calls of [write_tick] no counter exceeds [k]: the lines
    sent or pending, the batches sent and the errors. *)
Definition counters_within (k : Z) (x : World) : Prop :=
  0 <= lines_sent (stats x) /\ lines_sent (stats x) + pending x <= k
  /\ 0 <= batches_sent (stats x) <= k
  /\ 0 <= errors (stats x) <= k.

(** A configuration with batch size 2 and surroundings in which every
    [send] transmits 64 bytes, respectively fails. *)
Definition small_config : ILPConfig :=
  {| questdb_host := "localhost"; questdb_port := 9009; batch_size := 2 |}.
Definition env_sending : Env := Fixture.env_of (fun _ => 64).
Definition env_failing : Env := Fixture.env_of (fun _ => -1).

(** A running writer with one pending line. *)
Definition one_pending : ILPWriter :=
  with_batch (started small_config 3)
    [to_ilp_format reliance_tick].

(** ** Latency metrics *)

(** The invariant of the data model. *)
Definition min_avg_max (m : LatencyMetrics) : Prop :=
  min_api_latency m <= avg_api_latency m <= max_api_latency m.

(** The metrics after a sequence of requests, each given by whether its
    response was empty and by its latency. *)
Definition metrics_after (samples : list (bool * Z)) : LatencyMetrics :=
  fold_left (fun m s => update_metrics (fst s) (snd s) m) samples
    initial_metrics.

(** Two requests of one polling cycle: the first fails after its 30 s
    timeout (empty response), the second is answered in 100 us. *)
Definition failed_request : Request :=
  {| check_time := 1700000000000000;
     response := EmptyString;
     latency_us := 30000000;
     record_time := 1700000030000000 |}.

Definition answered_request : Request :=
  {| check_time := 1700000031000000;
     response := Fixture.daily_response;
     latency_us := 100;
     record_time := 1700000031000100 |}.

(** The ranges in which the arithmetic of the update does not wrap. *)
Definition in_range (latency : Z) (m : LatencyMetrics) : Prop :=
  0 <= latency < 2 ^ 63
  /\ 0 <= avg_api_latency m < 2 ^ 63
  /\ 0 <= request_count m
  /\ request_count m + 1 < 2 ^ 64
  /\ avg_api_latency m * request_count m + latency < 2 ^ 64.

(** ** The rate limiter *)

(** A sequence of [record_request] calls at the given clock readings. *)
Fixpoint record_requests (times : list Z) : St.State ClientState unit :=
  match times with
  | [] => St.ret tt
  | t :: rest => (record_request t ;;; record_requests rest)%state
  end.

(** The number of stored timestamps strictly newer than [now - 24h]. *)
Definition in_window (now : Z) (times : list Z) : Z :=
  Z.of_nat (List.length (filter (fun t => now - hours24 <? t) times)).

(** Twenty-five requests, one per second from the given instant. *)
Definition burst (start : Z) : list Z :=
  map (fun k => start + Z.of_nat k * 1000000) (seq 0 25).

Definition burst_start : Z := 1700000000000000.

(** ** Parsing a response *)

(** The payload carries an explicit error marker. *)
Definition has_error_marker (json : string) : Prop :=
  occurs "Error Message" json \/ occurs "Invalid API call" json.

(** The payload carries the throttle notice. *)
Definition has_throttle_marker (json : string) : Prop :=
  occurs "Thank you for using Alpha Vantage" json
  /\ occurs "call frequency" json.

(** What is read of a tick in the scenarios: price, quantity, side and
    fabricated timestamp. *)
Definition observed (t : TickData) : Double.double * Z * ascii * Z :=
  (price t, quantity t, side t, timestamp_us t).

(** Every tick strictly between the first and the last has a price that
    differs from the price of every tick before it. *)
Definition inner_prices_fresh (new : list TickData) : Prop :=
  forall (i j : nat) (ti tj : TickData),
    (j < i)%nat -> (S i < List.length new)%nat ->
    nth_error new i = Some ti -> nth_error new j = Some tj ->
    Double.neb (price ti) (price tj) = true.

(** The ticks built from the four prices, as the reading [base] of the
    clock and the later readings [r1 .. r4] make them. *)
Definition expected_ticks (sym exch : string)
    (o h l c : Double.double) (volume base r1 r2 r3 r4 : Z)
  : list TickData :=
  let tick p s ts r :=
    set_timestamp_us (make_tick r sym exch p (volume / 4) s) (wrap64 ts) in
  ([tick o "B"%char base r1]
   ++ (if Double.neb h o then [tick h "B"%char (base + 1) r2] else [])
   ++ (if (Double.neb l o && Double.neb l h)%bool
       then [tick l "S"%char (base + 2) r3] else [])
   ++ [tick c (if Double.gtb c o then "B"%char else "S"%char) (base + 3) r4]
  )%list.

(** ** The scenarios, run on concrete inputs *)

Definition scenario_clock : Clock := Fixture.clock_from 1700000000000000.

(** The entry located in [Fixture.daily_response]. *)
Definition scenario_block : string :=
  match locate_data_block Fixture.daily_response with
  | Some block => block
  | None => EmptyString
  end.

(** The output vector after parsing [Fixture.daily_response]. *)
Definition scenario_ticks : list TickData :=
  snd (St.eval
         (parse_time_series_response Fixture.stod Fixture.stoull
            Fixture.daily_response "RELIANCE.BSE" [])
         scenario_clock).

(** The clock after that parse. *)
Definition scenario_clock_after : Clock :=
  St.exec
    (parse_time_series_response Fixture.stod Fixture.stoull
       Fixture.daily_response "RELIANCE.BSE" [])
    scenario_clock.

(** The two blobs of the extractor examples. *)
Definition close_blob : string :=
  Fixture.json "{'4. close': 123.45 , '5. volume': 4000}".
Definition side_blob : string := Fixture.json "{'side':'B'}".

(** ** Runs of the writer *)

(** The strings of a list, one after the other. *)
Fixpoint concat_all (l : list string) : string :=
  match l with
  | [] => EmptyString
  | s :: rest => s ++ concat_all rest
  end.

(** Everything handed to [send] so far, followed by the pending lines as
    they would be sent. *)
Definition wire_text (x : World) : string :=
  concat_all (payloads x) ++ join_lines (current_batch_ (fst x)).

(** The ILP lines of a sequence of ticks. *)
Definition lines_of (ticks : list TickData) : list string :=
  map to_ilp_format ticks.

(** The bookkeeping of a run: the counters only move when a batch of [B]
    lines is flushed. *)
Definition accounted (B flushed : Z) (x : World) : Prop :=
  lines_sent (stats x) = B * batches_sent (stats x)
  /\ 0 <= batches_sent (stats x)
  /\ 0 <= errors (stats x)
  /\ batches_sent (stats x) + errors (stats x) = flushed.

(** Answers of the system calls with which [start] connects, and answers
    with which the connection is refused. *)
Definition connect_ok : Connect :=
  {| socket_answer := 3; inet_pton_answer := 1; host_found := true;
     connect_answer := 0 |}.
Definition connect_refused : Connect :=
  {| socket_answer := 3; inet_pton_answer := 1; host_found := true;
     connect_answer := -1 |}.

(** ** Runs of the fetch loop *)

(** The instant [t] lies in the 24 hours that start at [lo]. *)
Definition in_span (lo t : Z) : Prop := lo <= t < lo + hours24.

(** All clock readings of the requests lie in the 24 hours from [lo]. *)
Definition cycle_in_span (lo : Z) (rs : list Request) : Prop :=
  forall r, In r rs -> in_span lo (check_time r) /\ in_span lo (record_time r).

(** The number of failed requests among the samples. *)
Definition failures (samples : list (bool * Z)) : Z :=
  Z.of_nat (List.length (filter fst samples)).

(** Thirty requests, one per second from [burst_start], each answered in
    100 us with the daily response. *)
Definition thirty_requests : list Request :=
  map (fun k =>
         {| check_time := burst_start + Z.of_nat k * 1000000;
            response := Fixture.daily_response;
            latency_us := 100;
            record_time := burst_start + Z.of_nat k * 1000000 + 100 |})
      (seq 0 30).

(** Samples of a session: an answer in 120 us, a failure, answers in 80
    and 450 us. *)
Definition session_samples : list (bool * Z) :=
  [(false, 120); (true, 30000000); (false, 80); (false, 450)].

(** ** The pipeline *)

(** The pipeline at its start: nothing received, nothing written. *)
Definition fresh_app (clk : Clock) (x : World) : Pipeline.App :=
  {| Pipeline.clock := clk; Pipeline.world := x;
     Pipeline.ticks_received := 0; Pipeline.ticks_written := 0 |}.

(** The pipeline at its start with a connected writer of batch size 2,
    and with a writer that was never started. *)
Definition scenario_app : Pipeline.App :=
  fresh_app scenario_clock (started small_config 3, env_sending).
Definition idle_app : Pipeline.App :=
  fresh_app scenario_clock (constructed small_config, env_sending).

(** The timestamps of the ticks, in order. *)
Definition timestamps (ticks : list TickData) : list Z :=
  map timestamp_us ticks.

(** The quantities of the ticks, added up. *)
Definition total_quantity (ticks : list TickData) : Z :=
  fold_right Z.add 0 (map quantity ticks).

(** The symbols configured by the two [main] functions. *)
Definition default_symbols : list string := ["RELIANCE.BSE"; "TCS.BSE"].

End Spec.

(* ================================================================== *)
(** * Properties: machine integers and decimal printing *)

Module CppFacts.

Import Spec Cpp.

Lemma two64_pos : 0 < two64.
Proof. reflexivity. Qed.

Lemma wrap64_range (z : Z) : 0 <= wrap64 z < two64.
Proof. unfold wrap64. apply Z.mod_pos_bound, two64_pos. Qed.

Lemma wrap64_small (z : Z) : 0 <= z < two64 -> wrap64 z = z.
Proof. intros H. unfold wrap64. now apply Z.mod_small. Qed.

Lemma read_to_string_u64 (z : Z) : 0 <= z -> read_u64 (to_string_u64 z) = Some z.
Proof.
  intros Hz. unfold read_u64, to_string_u64.
  rewrite NilEmpty.usu, DecimalN.Unsigned.of_to, Z2N.id; auto.
Qed.

End CppFacts.

(* ================================================================== *)
(** * Properties: string search and scanning *)

Module StringFacts.

Import Spec Cpp.

Local Open Scope nat_scope.

Lemma append_assoc (a b c : string) : (a ++ b) ++ c = a ++ b ++ c.
Proof. induction a as [|x a IH]; simpl; [reflexivity|now rewrite IH]. Qed.

Lemma append_nil_r (a : string) : a ++ EmptyString = a.
Proof. induction a as [|x a IH]; simpl; [reflexivity|now rewrite IH]. Qed.

Lemma length_append (a b : string) :
  String.length (a ++ b) = String.length a + String.length b.
Proof. induction a as [|x a IH]; simpl; [reflexivity|now rewrite IH]. Qed.

Lemma prefix_append (p s : string) : prefix p (p ++ s) = true.
Proof.
  induction p as [|c p IH]; simpl; [destruct s; reflexivity|].
  destruct (ascii_dec c c); [exact IH|congruence].
Qed.

Lemma prefix_inv (p s : string) :
  prefix p s = true -> exists post, s = p ++ post.
Proof.
  revert s. induction p as [|c p IH]; intros s H.
  - exists s. reflexivity.
  - destruct s as [|d s]; simpl in H; [discriminate|].
    destruct (ascii_dec c d) as [->|]; [|discriminate].
    destruct (IH s H) as [post ->]. exists post. reflexivity.
Qed.

Lemma occurs_at_0 (p s : string) : occurs_at 0 p s <-> prefix p s = true.
Proof.
  split.
  - intros (pre & post & -> & Hlen).
    destruct pre; [|discriminate]. simpl. apply prefix_append.
  - intros H. destruct (prefix_inv p s H) as [post ->].
    exists EmptyString, post. split; reflexivity.
Qed.

Lemma occurs_at_S (n : nat) (p : string) (c : ascii) (s : string) :
  occurs_at (S n) p (String c s) <-> occurs_at n p s.
Proof.
  split.
  - intros (pre & post & Heq & Hlen).
    destruct pre as [|d pre]; [discriminate|]. simpl in Heq, Hlen.
    injection Heq as _ ->. injection Hlen as Hlen.
    exists pre, post. split; [reflexivity|exact Hlen].
  - intros (pre & post & -> & Hlen).
    exists (String c pre), post. split; [reflexivity|simpl; now rewrite Hlen].
Qed.

Lemma index0_cons (p : string) (c : ascii) (s : string) :
  index 0 p (String c s)
  = if prefix p (String c s) then Some 0 else option_map S (index 0 p s).
Proof.
  cbn [index]. destruct (prefix p (String c s)); [reflexivity|].
  destruct (index 0 p s); reflexivity.
Qed.

(** [index 0] finds the first occurrence. *)
Lemma index0_some (p s : string) (n : nat) :
  index 0 p s = Some n ->
  occurs_at n p s /\ (forall m, occurs_at m p s -> n <= m).
Proof.
  revert n. induction s as [|c s IH]; intros n H.
  - simpl in H. destruct p; [|discriminate]. injection H as <-.
    split; [|intros; lia]. exists EmptyString, EmptyString. split; reflexivity.
  - rewrite index0_cons in H. destruct (prefix p (String c s)) eqn:Hp.
    + injection H as <-. split; [now apply occurs_at_0|intros; lia].
    + destruct (index 0 p s) as [k|] eqn:Hk; [|discriminate].
      injection H as <-. destruct (IH k eq_refl) as [Hocc Hmin].
      split; [now apply occurs_at_S|].
      intros m Hm. destruct m as [|m].
      * apply occurs_at_0 in Hm. congruence.
      * apply occurs_at_S in Hm. specialize (Hmin m Hm). lia.
Qed.

Lemma index0_none (p s : string) : index 0 p s = None -> ~ occurs p s.
Proof.
  induction s as [|c s IH]; intros H (pre & post & Heq).
  - simpl in H. destruct p; [discriminate|].
    destruct pre; discriminate.
  - rewrite index0_cons in H.
    destruct (prefix p (String c s)) eqn:Hp; [discriminate|].
    destruct (index 0 p s) eqn:Hk; [discriminate|].
    destruct pre as [|d pre].
    + simpl in Heq. rewrite Heq, prefix_append in Hp. discriminate.
    + simpl in Heq. injection Heq as _ Heq. apply IH; [reflexivity|].
      exists pre, post. exact Heq.
Qed.

Lemma contains_occurs (s pat : string) :
  contains s pat = true <-> occurs pat s.
Proof.
  unfold contains, find. split.
  - destruct (index 0 pat s) as [n|] eqn:H; [|discriminate]. intros _.
    destruct (index0_some pat s n H) as [(pre & post & Heq & _) _].
    exists pre, post. exact Heq.
  - intros Hocc. destruct (index 0 pat s) eqn:H; [reflexivity|].
    exfalso. exact (index0_none pat s H Hocc).
Qed.

(** Searching from the end of a known prefix. *)
Lemma index_skip (pre p s : string) :
  index (String.length pre) p (pre ++ s)
  = option_map (Nat.add (String.length pre)) (index 0 p s).
Proof.
  induction pre as [|c pre IH]; simpl.
  - destruct (index 0 p s); reflexivity.
  - rewrite IH. destruct (index 0 p s); reflexivity.
Qed.

Lemma get_skip (pre s : string) (k : nat) :
  String.get (String.length pre + k) (pre ++ s) = String.get k s.
Proof. induction pre as [|c pre IH]; simpl; [reflexivity|exact IH]. Qed.

Lemma substring_skip (pre s : string) (n : nat) :
  substring (String.length pre) n (pre ++ s) = substring 0 n s.
Proof. induction pre as [|c pre IH]; simpl; [reflexivity|exact IH]. Qed.

Lemma substring_prefix (a b : string) :
  substring 0 (String.length a) (a ++ b) = a.
Proof.
  induction a as [|c a IH]; simpl.
  - destruct b; reflexivity.
  - now rewrite IH.
Qed.

Lemma substring_all (a : string) : substring 0 (String.length a) a = a.
Proof.
  rewrite <- (append_nil_r a) at 2. apply substring_prefix.
Qed.

Lemma take_drop_while (p : ascii -> bool) (s : string) :
  take_while p s ++ drop_while p s = s.
Proof.
  induction s as [|c s IH]; simpl; [reflexivity|].
  destruct (p c); simpl; [now rewrite IH|reflexivity].
Qed.

Lemma take_while_all (p : ascii -> bool) (s : string) :
  all_chars p (take_while p s) = true.
Proof.
  induction s as [|c s IH]; simpl; [reflexivity|].
  destruct (p c) eqn:Hc; simpl; [now rewrite Hc|reflexivity].
Qed.

Lemma drop_while_start (p : ascii -> bool) (s : string) :
  starts_with p (drop_while p s) = false.
Proof.
  induction s as [|c s IH]; simpl; [reflexivity|].
  destruct (p c) eqn:Hc; simpl; [exact IH|exact Hc].
Qed.

(** A run of [p]-characters followed by something that does not start
    with one is split by [take_while] and [drop_while]. *)
Lemma take_while_split (p : ascii -> bool) (a b : string) :
  all_chars p a = true -> starts_with p b = false ->
  take_while p (a ++ b) = a /\ drop_while p (a ++ b) = b.
Proof.
  intros Ha Hb. induction a as [|c a IH]; simpl in *.
  - destruct b as [|d b]; simpl in *; [split; reflexivity|].
    rewrite Hb. split; reflexivity.
  - apply andb_prop in Ha. destruct Ha as [Hc Ha]. rewrite Hc.
    destruct (IH Ha) as [-> ->]. split; reflexivity.
Qed.

(** The scanning loop stops after the longest run of [p]-characters. *)
Lemma scan_while_run (p : ascii -> bool) (s : string) :
  forall (pre : string) (fuel : nat),
    String.length s <= fuel ->
    scan_while p fuel (pre ++ s) (String.length pre)
    = String.length pre + String.length (take_while p s).
Proof.
  induction s as [|c s IH]; intros pre fuel Hfuel.
  - simpl. rewrite Nat.add_0_r. destruct fuel; simpl; [reflexivity|].
    rewrite <- (Nat.add_0_r (String.length pre)) at 1.
    rewrite get_skip. reflexivity.
  - destruct fuel as [|fuel]; [simpl in Hfuel; lia|]. simpl.
    rewrite <- (Nat.add_0_r (String.length pre)) at 1.
    rewrite get_skip. simpl. destruct (p c) eqn:Hc.
    + specialize (IH (pre ++ String c EmptyString) fuel).
      rewrite append_assoc in IH. simpl in IH.
      rewrite length_append in IH. simpl in IH.
      replace (String.length pre + 1) with (S (String.length pre)) in IH by lia.
      rewrite IH by (simpl in Hfuel; lia). simpl. lia.
    + simpl. lia.
Qed.

Lemma while_index_run (p : ascii -> bool) (pre s : string) :
  while_index p (pre ++ s) (String.length pre)
  = String.length pre + String.length (take_while p s).
Proof.
  unfold while_index. apply scan_while_run.
  rewrite length_append. lia.
Qed.

End StringFacts.

(* ================================================================== *)
(** * Properties: the response extractor *)

Module ExtractorFacts.

Import Spec Cpp Extractor CppFacts StringFacts.

Local Open Scope nat_scope.

Lemma first_occurrence (pat pre rest : string) :
  (forall m, occurs_at m pat (pre ++ pat ++ rest) -> String.length pre <= m) ->
  find (pre ++ pat ++ rest) pat 0 = Some (String.length pre).
Proof.
  intros Hmin. unfold find.
  destruct (index 0 pat (pre ++ pat ++ rest)) as [n|] eqn:H.
  - destruct (index0_some _ _ _ H) as [Hocc Hfirst].
    assert (Hle : n <= String.length pre).
    { apply Hfirst. exists pre, rest. split; reflexivity. }
    specialize (Hmin n Hocc). f_equal. lia.
  - exfalso. apply (index0_none _ _ H). exists pre, rest. reflexivity.
Qed.

Lemma index0_char (c : ascii) (v post : string) :
  all_chars (fun d => negb (Ascii.eqb d c)) v = true ->
  index 0 (String c EmptyString) (v ++ String c post) = Some (String.length v).
Proof.
  induction v as [|d v IH]; intros Hv.
  - simpl append. rewrite index0_cons. simpl prefix.
    destruct (ascii_dec c c); [|congruence]. destruct post; reflexivity.
  - simpl in Hv. apply andb_prop in Hv. destruct Hv as [Hd Hv].
    simpl append. rewrite index0_cons. simpl prefix.
    destruct (ascii_dec c d) as [->|Hcd].
    + rewrite Ascii.eqb_refl in Hd. discriminate.
    + rewrite (IH Hv). reflexivity.
Qed.

Lemma index0_char_none (c : ascii) (v : string) :
  all_chars (fun d => negb (Ascii.eqb d c)) v = true ->
  index 0 (String c EmptyString) v = None.
Proof.
  induction v as [|d v IH]; intros Hv; [reflexivity|].
  simpl in Hv. apply andb_prop in Hv. destruct Hv as [Hd Hv].
  rewrite index0_cons. simpl prefix.
  destruct (ascii_dec c d) as [->|Hcd].
  - rewrite Ascii.eqb_refl in Hd. discriminate.
  - rewrite (IH Hv). reflexivity.
Qed.

Lemma trim_set_is_space (c : ascii) : in_trim_set c = true -> isspace c = true.
Proof.
  unfold in_trim_set, trim_set. simpl.
  repeat match goal with
         | |- context [Ascii.eqb c ?d] =>
             destruct (Ascii.eqb_spec c d); [subst c; reflexivity|]
         end.
  discriminate.
Qed.

(** The leading trim does nothing on a value that does not start with
    white space. *)
Lemma leading_trim_id (raw : string) :
  starts_with isspace raw = false ->
  erase_prefix raw (find_first_not_of raw trim_set) = raw.
Proof.
  intros Hs. unfold find_first_not_of.
  pose proof (while_index_run in_trim_set EmptyString raw) as Hrun.
  simpl in Hrun. unfold in_trim_set in Hrun. rewrite Hrun.
  destruct raw as [|c raw]; [reflexivity|].
  simpl in Hs.
  assert (Hc : mem_char c trim_set = false).
  { destruct (mem_char c trim_set) eqn:Hc; [|reflexivity].
    apply trim_set_is_space in Hc. congruence. }
  cbn [take_while]. rewrite Hc.
  change (String.length EmptyString <? String.length (String c raw)) with true.
  unfold erase_prefix, substr_from. rewrite Nat.sub_0_r.
  apply substring_all.
Qed.

Lemma all_chars_get (p : ascii -> bool) (s : string) (k : nat) (c : ascii) :
  all_chars p s = true -> String.get k s = Some c -> p c = true.
Proof.
  revert k. induction s as [|d s IH]; intros k Hall Hget; [discriminate|].
  simpl in Hall. apply andb_prop in Hall. destruct Hall as [Hd Hall].
  destruct k as [|k]; simpl in Hget.
  - injection Hget as <-. exact Hd.
  - exact (IH k Hall Hget).
Qed.

Lemma get_in_range (s : string) (k : nat) :
  k < String.length s -> exists c, String.get k s = Some c.
Proof.
  revert k. induction s as [|d s IH]; intros k Hk; [simpl in Hk; lia|].
  destruct k as [|k]; simpl.
  - eexists. reflexivity.
  - apply IH. simpl in Hk. lia.
Qed.

Lemma last_not_of_S (set s : string) (n : nat) :
  last_not_of set s (S n)
  = match String.get n s with
    | Some c => if mem_char c set then last_not_of set s n else Some n
    | None => last_not_of set s n
    end.
Proof. reflexivity. Qed.

(** Scanning backwards skips a trailing run of set characters. *)
Lemma last_not_of_skip (set a b : string) (k : nat) :
  all_chars (fun c => mem_char c set) b = true ->
  k <= String.length b ->
  last_not_of set (a ++ b) (String.length a + k)
  = last_not_of set (a ++ b) (String.length a).
Proof.
  intros Hall. induction k as [|k IH]; intros Hk.
  - now rewrite Nat.add_0_r.
  - rewrite Nat.add_succ_r, last_not_of_S, get_skip.
    destruct (get_in_range b k) as [c Hc]; [lia|].
    rewrite Hc. rewrite (all_chars_get _ b k c Hall Hc).
    apply IH. lia.
Qed.

Lemma ends_with_false (p : ascii -> bool) (s : string) :
  ends_with p s = false ->
  s = EmptyString
  \/ exists a c, s = a ++ String c EmptyString /\ p c = false.
Proof.
  induction s as [|d s IH]; intros H; [now left|]. right.
  destruct s as [|e s].
  - exists EmptyString, d. split; [reflexivity|exact H].
  - destruct (IH H) as [Hs|(a & c & Hs & Hc)]; [discriminate|].
    exists (String d a), c. rewrite Hs. split; [reflexivity|exact Hc].
Qed.

(** The trailing trim removes exactly a trailing run of set characters. *)
Lemma trailing_trim (kept trail : string) :
  all_chars in_trim_set trail = true ->
  ends_with in_trim_set kept = false ->
  erase_after (kept ++ trail) (find_last_not_of (kept ++ trail) trim_set)
  = kept.
Proof.
  intros Htrail Hkept. unfold find_last_not_of.
  rewrite length_append.
  rewrite (last_not_of_skip trim_set kept trail (String.length trail) Htrail)
    by lia.
  destruct (ends_with_false _ _ Hkept) as [->|(a & c & -> & Hc)].
  - reflexivity.
  - rewrite length_append. simpl String.length.
    rewrite Nat.add_1_r, last_not_of_S.
    rewrite append_assoc.
    rewrite <- (Nat.add_0_r (String.length a)) at 1.
    rewrite get_skip. cbn [String.get append].
    unfold in_trim_set in Hc. rewrite Hc.
    unfold erase_after, substr.
    replace (S (String.length a))
      with (String.length (a ++ String c EmptyString))
      by (rewrite length_append; simpl; lia).
    change (String c trail) with (String c EmptyString ++ trail).
    rewrite <- append_assoc. apply substring_prefix.
Qed.

(** After the first occurrence of the marker and the white space that
    follows it, the extractor looks at the rest of the blob only. *)
Lemma extract_after_marker (key pre ws body : string) :
  let marker := search_key_of key in
  let head := (pre ++ marker) ++ ws in
  let json := head ++ body in
  (forall m, occurs_at m marker (pre ++ marker ++ ws ++ body) ->
             String.length pre <= m) ->
  all_chars isspace ws = true -> starts_with isspace body = false ->
  json = pre ++ marker ++ ws ++ body
  /\ extract_json_value json key
     = let start := String.length head in
       if Nat.leb (size json) start then EmptyString
       else if Ascii.eqb (char_at json start) dquote then
         match find_char json dquote (S start) with
         | None => EmptyString
         | Some end_ => substr json (S start) (end_ - S start)
         end
       else
         let end_ := while_index not_delimiter json start in
         let value := substr json start (end_ - start) in
         let value := erase_prefix value (find_first_not_of value trim_set) in
         erase_after value (find_last_not_of value trim_set).
Proof.
  intros marker head json Hmin Hws Hbody.
  assert (Hjson : json = pre ++ marker ++ ws ++ body).
  { unfold json, head. now rewrite !append_assoc. }
  split; [exact Hjson|].
  assert (Hfind : find json marker 0 = Some (String.length pre)).
  { rewrite Hjson. now apply first_occurrence. }
  assert (Hstart : while_index isspace json (String.length pre + size marker)
                   = String.length head).
  { replace (String.length pre + size marker)
      with (String.length (pre ++ marker))
      by (rewrite length_append; reflexivity).
    replace json with ((pre ++ marker) ++ ws ++ body)
      by (unfold json, head; now rewrite !append_assoc).
    rewrite while_index_run.
    destruct (take_while_split isspace ws body Hws Hbody) as [-> _].
    unfold head. now rewrite <- length_append. }
  unfold extract_json_value. fold marker. rewrite Hfind, Hstart.
  reflexivity.
Qed.

Lemma head_quote (head tail : string) :
  head ++ String dquote tail = (head ++ quote) ++ tail.
Proof. now rewrite append_assoc. Qed.

(** C6: [extract_json_value] returns the empty string when the marker
    (the key between quotes, then a colon) is absent, when the blob ends
    after the marker and the white space following it, and when a quoted
    value has no closing quote; for a quoted value it returns the text
    between the opening quote and the next quote; for an unquoted value
    it returns the text up to the next comma, closing brace or closing
    bracket (or the end of the blob) without its trailing blanks (space,
    tab, carriage return, line feed); it starts at a character that is
    not white space, so nothing is trimmed in front. *)
Theorem extract_json_value_cases (json key : string) :
  let marker := search_key_of key in
  (~ occurs marker json -> extract_json_value json key = EmptyString)
  /\ (forall pre ws body : string,
        json = pre ++ marker ++ ws ++ body ->
        (forall m, occurs_at m marker json -> String.length pre <= m) ->
        all_chars isspace ws = true -> starts_with isspace body = false ->
        (body = EmptyString -> extract_json_value json key = EmptyString)
        /\ (forall v post : string,
              body = quote ++ v ++ quote ++ post ->
              all_chars not_quote v = true ->
              extract_json_value json key = v)
        /\ (forall v : string,
              body = quote ++ v -> all_chars not_quote v = true ->
              extract_json_value json key = EmptyString)
        /\ (forall raw post v trail : string,
              body = raw ++ post ->
              starts_with (Ascii.eqb dquote) body = false ->
              all_chars not_delimiter raw = true ->
              starts_with not_delimiter post = false ->
              raw = v ++ trail ->
              all_chars in_trim_set trail = true ->
              ends_with in_trim_set v = false ->
              extract_json_value json key = v)).
Proof.
  intros marker. split.
  - intros Habs. unfold extract_json_value. fold marker.
    destruct (find json marker 0) as [n|] eqn:Hf; [|reflexivity].
    exfalso. apply Habs. apply contains_occurs. unfold contains.
    now rewrite Hf.
  - intros pre ws body Hjson Hmin Hws Hbody.
    rewrite Hjson in Hmin.
    destruct (extract_after_marker key pre ws body Hmin Hws Hbody)
      as [Heq Hex].
    fold marker in Heq, Hex. rewrite <- Heq in Hjson. clear Heq.
    set (head := (pre ++ marker) ++ ws) in *.
    rewrite Hjson, Hex. clear Hex Hjson Hmin.
    assert (Hsize : forall b, size (head ++ b)
                              = String.length head + String.length b).
    { intros b. unfold size. apply length_append. }
    assert (Hchar : forall c b, char_at (head ++ String c b)
                                  (String.length head) = c).
    { intros c b. unfold char_at.
      rewrite <- (Nat.add_0_r (String.length head)), get_skip. reflexivity. }
    cbv zeta. split; [|split; [|split]].
    + intros ->. rewrite Hsize. simpl String.length.
      rewrite Nat.add_0_r, Nat.leb_refl. reflexivity.
    + intros v post -> Hv. unfold quote. simpl append.
      rewrite Hsize, Hchar, Ascii.eqb_refl.
      rewrite (proj2 (Nat.leb_gt _ _)) by (simpl; lia).
      rewrite (head_quote head).
      replace (S (String.length head)) with (String.length (head ++ quote))
        by (rewrite length_append; simpl; lia).
      unfold find_char. rewrite index_skip.
      rewrite (index0_char dquote v post Hv). simpl option_map.
      unfold substr. rewrite Nat.add_comm, Nat.add_sub.
      rewrite substring_skip. apply substring_prefix.
    + intros v -> Hv. unfold quote. simpl append.
      rewrite Hsize, Hchar, Ascii.eqb_refl.
      rewrite (proj2 (Nat.leb_gt _ _)) by (simpl; lia).
      rewrite (head_quote head).
      replace (S (String.length head)) with (String.length (head ++ quote))
        by (rewrite length_append; simpl; lia).
      unfold find_char. rewrite index_skip.
      rewrite (index0_char_none dquote v Hv). reflexivity.
    + intros raw post v trail -> Hq Hraw Hpost -> Htrail Hv.
      rewrite Hsize.
      destruct (v ++ trail) as [|c rest] eqn:Hvt.
      * destruct v; [|discriminate]. cbn [append] in *.
        destruct post as [|d post].
        { cbn [String.length]. rewrite Nat.add_0_r, Nat.leb_refl.
          reflexivity. }
        rewrite (proj2 (Nat.leb_gt _ _)) by (simpl; lia).
        rewrite Hchar. cbn [starts_with] in Hq, Hpost.
        rewrite Ascii.eqb_sym, Hq.
        rewrite while_index_run. cbn [take_while]. rewrite Hpost.
        cbn [String.length]. rewrite Nat.add_0_r, Nat.sub_diag.
        unfold substr. rewrite substring_skip. reflexivity.
      * cbn [append] in *.
        rewrite (proj2 (Nat.leb_gt _ _)) by (simpl; lia).
        rewrite Hchar. cbn [starts_with] in Hq, Hbody.
        rewrite Ascii.eqb_sym, Hq.
        change (String c (rest ++ post)) with (String c rest ++ post).
        rewrite while_index_run.
        destruct (take_while_split not_delimiter (String c rest) post Hraw Hpost)
          as [-> _].
        rewrite Nat.add_comm, Nat.add_sub.
        assert (Hval : substr (head ++ String c rest ++ post)
                         (String.length head) (String.length (String c rest))
                       = String c rest).
        { unfold substr. rewrite substring_skip. apply substring_prefix. }
        rewrite !Hval.
        rewrite (leading_trim_id (String c rest)) by exact Hbody.
        rewrite <- Hvt. now apply trailing_trim.
Qed.

(** The cases of [extract_json_value_cases] cover every blob: where the
    marker occurs, the blob splits at its first occurrence into the white
    space that follows and a rest that does not start with white space. *)
Lemma marker_split (json key : string) :
  occurs (search_key_of key) json ->
  exists pre ws body : string,
    json = pre ++ search_key_of key ++ ws ++ body
    /\ (forall m, occurs_at m (search_key_of key) json ->
                  String.length pre <= m)
    /\ all_chars isspace ws = true
    /\ starts_with isspace body = false.
Proof.
  intros Hocc. apply contains_occurs in Hocc. unfold contains, find in Hocc.
  destruct (index 0 (search_key_of key) json) as [n|] eqn:Hn; [|discriminate].
  destruct (index0_some _ _ _ Hn) as [(pre & post & Heq & Hlen) Hmin].
  exists pre, (take_while isspace post), (drop_while isspace post).
  rewrite take_drop_while. repeat split.
  - exact Heq.
  - intros m Hm. rewrite Hlen. now apply Hmin.
  - apply take_while_all.
  - apply drop_while_start.
Qed.

(** Every text splits into a part that does not end with a blank of the
    trim set and a trailing run of such blanks. *)
Lemma trailing_blanks_split (raw : string) :
  exists v trail : string,
    raw = v ++ trail
    /\ all_chars in_trim_set trail = true
    /\ ends_with in_trim_set v = false.
Proof.
  induction raw as [|c raw (v & trail & Heq & Htrail & Hv)].
  - exists EmptyString, EmptyString. repeat split.
  - destruct v as [|d v].
    + simpl in Heq. subst raw. destruct (in_trim_set c) eqn:Hc.
      * exists EmptyString, (String c trail). simpl. rewrite Hc.
        repeat split. exact Htrail.
      * exists (String c EmptyString), trail. simpl. repeat split; assumption.
    + exists (String c (String d v)), trail. subst raw.
      repeat split; assumption.
Qed.

(** A text after an opening quote either holds no further quote or splits
    at its first quote. *)
Lemma closing_quote_split (tail : string) :
  all_chars not_quote tail = true
  \/ exists v post : string,
       tail = v ++ quote ++ post /\ all_chars not_quote v = true.
Proof.
  induction tail as [|c tail IH]; [now left|].
  destruct (not_quote c) eqn:Hc.
  - destruct IH as [Hall|(v & post & -> & Hv)].
    + left. simpl. now rewrite Hc.
    + right. exists (String c v), post. simpl. rewrite Hc. split; auto.
  - right. exists EmptyString, tail. split; [|reflexivity].
    unfold not_quote in Hc. apply negb_false_iff in Hc.
    apply Ascii.eqb_eq in Hc. subst c. reflexivity.
Qed.

End ExtractorFacts.

(* ================================================================== *)
(** * Properties: serialisation of a tick *)

Module TickFacts.

Import Spec Cpp Tick CppFacts.

(** C9, as amended: every tick serialises to the ILP line layout, with the
    quantity and the timestamp printed in decimal; the timestamp field is
    the microsecond timestamp times 1000 reduced modulo 2^64, which is the
    exact product for every timestamp up to 18446744073709551 us; the
    RELIANCE tick of the scenario serialises to the documented line. *)
Theorem to_ilp_format_line :
  (forall t : TickData,
      0 <= quantity t -> 0 <= timestamp_us t ->
      exists qty_s ts_s,
        to_ilp_format t
        = ilp_line (symbol t) (exchange t) (Double.to_string (price t))
            qty_s (side t) ts_s
        /\ read_u64 qty_s = Some (quantity t)
        /\ read_u64 ts_s = Some ((timestamp_us t * 1000) mod 2 ^ 64)
        /\ (timestamp_us t <= max_exact_timestamp_us ->
            read_u64 ts_s = Some (timestamp_us t * 1000)))
  /\ to_ilp_format reliance_tick
     = Fixture.json
         ("trades,symbol=RELIANCE,exchange=BSE price=2500.500000,"
          ++ "quantity=10,side='B' 1700000000000000000").
Proof.
  split.
  - intros t Hq Ht.
    exists (to_string_u64 (quantity t)),
           (to_string_u64 (wrap64 (timestamp_us t * 1000))).
    split; [reflexivity|].
    split; [now apply read_to_string_u64|].
    assert (Hr : read_u64 (to_string_u64 (wrap64 (timestamp_us t * 1000)))
                 = Some ((timestamp_us t * 1000) mod 2 ^ 64)).
    { rewrite read_to_string_u64; [reflexivity|apply wrap64_range]. }
    split; [exact Hr|].
    intros Hmax. rewrite Hr. f_equal.
    apply Z.mod_small. unfold max_exact_timestamp_us in Hmax.
    split; [lia|].
    apply Z.le_lt_trans with (18446744073709551 * 1000); [lia|reflexivity].
  - vm_compute. reflexivity.
Qed.

(** C9, as amended, on the RELIANCE tick. *)
Lemma to_ilp_format_line_witness :
  exists qty_s ts_s,
    to_ilp_format reliance_tick
    = ilp_line "RELIANCE" "BSE" (Double.to_string (price reliance_tick))
        qty_s "B" ts_s
    /\ read_u64 qty_s = Some 10
    /\ read_u64 ts_s = Some ((1700000000000000 * 1000) mod 2 ^ 64)
    /\ (1700000000000000 <= max_exact_timestamp_us ->
        read_u64 ts_s = Some (1700000000000000 * 1000)).
Proof.
  apply (proj1 to_ilp_format_line reliance_tick); simpl; lia.
Defined.

(** C9 as stated fails for a tick stamped 18446744073709552 us: the line
    ends in 384, not in the timestamp times 1000. *)
Lemma to_ilp_format_wraps :
  to_ilp_format late_tick
  = Fixture.json
      ("trades,symbol=RELIANCE,exchange=BSE price=2500.500000,"
       ++ "quantity=10,side='B' 384")
  /\ timestamp_us late_tick * 1000 = 18446744073709552000
  /\ to_ilp_format late_tick
     <> ilp_line "RELIANCE" "BSE" "2500.500000" "10" "B"
          (to_string_u64 (timestamp_us late_tick * 1000)).
Proof.
  split; [vm_compute; reflexivity|].
  split; [reflexivity|].
  vm_compute. discriminate.
Qed.

End TickFacts.

(* ================================================================== *)
(** * Properties: the batched line writer *)

Module WriterFacts.

Import Spec Cpp Tick Writer CppFacts.

Lemma vsize_push_back {A : Type} (v : list A) (a : A) :
  vsize (push_back v a) = vsize v + 1.
Proof.
  unfold vsize, push_back. rewrite length_app. simpl. lia.
Qed.

Lemma vsize_nonneg {A : Type} (v : list A) : 0 <= vsize v.
Proof. unfold vsize. lia. Qed.

Lemma send_batch_result (w : ILPWriter) (env : Env) :
  fst (send_batch (socket_fd_ w) (current_batch_ w) env)
  = send_succeeds (w, env).
Proof.
  unfold send_batch, send_succeeds, payloads. simpl.
  destruct (Z.ltb_spec (socket_fd_ w) 0) as [Hfd|Hfd].
  - simpl. destruct (Z.leb_spec 0 (socket_fd_ w)); [lia|reflexivity].
  - destruct (Z.leb_spec 0 (socket_fd_ w)); [|lia].
    unfold St.bind, sys_send. simpl.
    destruct (Z.ltb_spec (send_result env (List.length (sent_payloads env))) 0);
      destruct (Z.leb_spec 0 (send_result env (List.length (sent_payloads env))));
      simpl; try reflexivity; lia.
Qed.

Lemma send_batch_reports (fd : Z) (lines : list string) (env : Env) :
  reported_batches (snd (send_batch fd lines env)) = reported_batches env.
Proof.
  unfold send_batch. destruct (fd <? 0); [reflexivity|].
  unfold St.bind, sys_send. simpl.
  destruct (send_result env (List.length (sent_payloads env)) <? 0); reflexivity.
Qed.

(** A flush that proceeds: counters updated by the outcome of the send,
    one report printed, batch cleared. *)
Lemma flush_proceeds (w : ILPWriter) (env : Env) :
  current_batch_ w <> [] -> running_ w = true ->
  let y := St.exec flush (w, env) in
  fst y = with_batch
            (with_stats w (count_send (send_succeeds (w, env))
                             (vsize (current_batch_ w)) (stats_ w))) []
  /\ reports y = (reports (w, env) ++ [vsize (current_batch_ w)])%list.
Proof.
  intros Hne Hrun. unfold St.exec, flush.
  destruct (current_batch_ w) as [|l ls] eqn:Hb; [congruence|].
  rewrite Hrun. simpl orb. cbv iota.
  rewrite <- Hb.
  pose proof (send_batch_result w env) as Hres.
  pose proof (send_batch_reports (socket_fd_ w) (current_batch_ w) env) as Hrep.
  destruct (send_batch (socket_fd_ w) (current_batch_ w) env) as [ok env'].
  simpl in Hres, Hrep. subst ok.
  unfold reports. simpl. rewrite Hrep. split; reflexivity.
Qed.

Lemma write_tick_step (B : Z) (t : TickData) (x : World) :
  between_writes B x ->
  let pushed : World :=
    (with_batch (fst x) (push_back (current_batch_ (fst x)) (to_ilp_format t)),
     snd x) in
  St.exec (write_tick t) x
  = if pending x + 1 =? B then St.exec flush pushed else pushed.
Proof.
  intros (Hrun & HB & Hlt). destruct x as [w env]. simpl in *.
  unfold St.exec, write_tick. rewrite Hrun. simpl negb. cbv iota.
  cbn [config_ with_batch current_batch_].
  rewrite vsize_push_back, HB. unfold pending in *. simpl in *.
  destruct (Z.geb_spec (vsize (current_batch_ w) + 1) B) as [Hge|Hl];
    destruct (Z.eqb_spec (vsize (current_batch_ w) + 1) B); try lia;
    reflexivity.
Qed.

Lemma write_tick_between (B : Z) (t : TickData) (x : World) :
  1 <= B -> between_writes B x -> between_writes B (St.exec (write_tick t) x).
Proof.
  intros HB1 Hinv. rewrite (write_tick_step B t x Hinv).
  destruct Hinv as (Hrun & HB & Hlt). destruct x as [w env].
  unfold pending in *. simpl in *.
  destruct (Z.eqb_spec (vsize (current_batch_ w) + 1) B) as [Heq|Hneq].
  - set (w' := with_batch w (push_back (current_batch_ w) (to_ilp_format t))).
    assert (Hne : current_batch_ w' <> []).
    { unfold w', push_back. simpl. destruct (current_batch_ w); discriminate. }
    destruct (flush_proceeds w' env Hne Hrun) as [Hfst _].
    unfold between_writes, pending. rewrite Hfst. simpl.
    repeat split; auto. unfold vsize. simpl. lia.
  - unfold between_writes, pending. simpl. rewrite vsize_push_back.
    repeat split; auto. lia.
Qed.

Lemma write_ticks_between (B : Z) (ticks : list TickData) :
  1 <= B -> forall x, between_writes B x ->
  between_writes B (St.exec (write_ticks ticks) x).
Proof.
  intros HB1. induction ticks as [|t rest IH]; intros x Hinv.
  - exact Hinv.
  - pose proof (write_tick_between B t x HB1 Hinv) as Hstep.
    specialize (IH _ Hstep).
    unfold St.exec in *. simpl. unfold St.bind.
    destruct (write_tick t x) as [u x']. exact IH.
Qed.

Lemma started_between (cfg : ILPConfig) (fd : Z) (env : Env) :
  1 <= batch_size cfg -> between_writes (batch_size cfg) (started cfg fd, env).
Proof.
  intros H. unfold between_writes, pending, vsize. simpl. repeat split; lia.
Qed.

Lemma write_tick_counters (B k : Z) (t : TickData) (x : World) :
  1 <= B -> between_writes B x -> counters_within k x -> k + 1 < 2 ^ 64 ->
  counters_within (k + 1) (St.exec (write_tick t) x).
Proof.
  intros HB1 Hinv (Hl0 & Hl & Hb & He) Hk.
  rewrite (write_tick_step B t x Hinv).
  destruct Hinv as (Hrun & HB & Hlt). destruct x as [w env].
  unfold pending, stats in *. simpl in *.
  pose proof (vsize_nonneg (current_batch_ w)) as Hp.
  destruct (Z.eqb_spec (vsize (current_batch_ w) + 1) B) as [Heq|Hneq].
  - set (w' := with_batch w (push_back (current_batch_ w) (to_ilp_format t))).
    assert (Hne : current_batch_ w' <> []).
    { unfold w', push_back. simpl. destruct (current_batch_ w); discriminate. }
    destruct (flush_proceeds w' env Hne Hrun) as [Hfst _].
    unfold counters_within, pending, stats. rewrite Hfst.
    unfold w'. simpl. rewrite vsize_push_back.
    change (vsize (@nil string)) with 0.
    unfold count_send.
    destruct (send_succeeds
                (with_batch w (push_back (current_batch_ w) (to_ilp_format t)),
                 env)); simpl;
      rewrite ?wrap64_small by (unfold two64; lia); lia.
  - unfold counters_within, pending, stats. simpl.
    rewrite vsize_push_back. lia.
Qed.

(** In a run of fewer than 2^64 calls of [write_tick] from a started
    writer the counters stay below the number of calls, hence never
    wrap. *)
Lemma write_ticks_counters (B : Z) (ticks : list TickData) :
  1 <= B -> forall (k : Z) (x : World),
  between_writes B x -> counters_within k x ->
  k + vsize ticks < 2 ^ 64 ->
  counters_within (k + vsize ticks) (St.exec (write_ticks ticks) x).
Proof.
  intros HB1. induction ticks as [|t rest IH]; intros k x Hinv Hc Hk.
  - unfold vsize. simpl. now rewrite Z.add_0_r.
  - assert (Hlen : vsize (t :: rest) = 1 + vsize rest)
      by (unfold vsize; simpl List.length; lia).
    rewrite Hlen in *. pose proof (vsize_nonneg rest) as Hr.
    pose proof (write_tick_between B t x HB1 Hinv) as Hinv'.
    pose proof (write_tick_counters B k t x HB1 Hinv Hc ltac:(lia)) as Hc'.
    specialize (IH (k + 1) _ Hinv' Hc' ltac:(lia)).
    replace (k + (1 + vsize rest)) with (k + 1 + vsize rest) by lia.
    unfold St.exec in *. simpl. unfold St.bind.
    destruct (write_tick t x) as [u x']. exact IH.
Qed.

(** C1: on a running writer with batch size B >= 1, after any sequence of
    [write_tick] calls fewer than B lines are pending; the next
    [write_tick] flushes (one batch of B lines is reported and nothing is
    left pending) exactly when it brings the pending count to B, and
    otherwise only appends the line; every flush that proceeds leaves no
    pending line, whatever [send] returns. *)
Theorem flush_exactly_at_batch_size (cfg : ILPConfig) (fd : Z) (env0 : Env)
    (ticks : list TickData) (t : TickData) (w : ILPWriter) (env : Env) :
  1 <= batch_size cfg ->
  let B := batch_size cfg in
  let x := St.exec (write_ticks ticks) (started cfg fd, env0) in
  let y := St.exec (write_tick t) x in
  pending x < B
  /\ (pending x + 1 = B ->
      reports y = (reports x ++ [B])%list /\ pending y = 0)
  /\ (pending x + 1 <> B ->
      reports y = reports x /\ pending y = pending x + 1
      /\ stats y = stats x /\ payloads y = payloads x)
  /\ (current_batch_ w <> [] -> running_ w = true ->
      pending (St.exec flush (w, env)) = 0).
Proof.
  intros HB1 B x y.
  assert (Hinv : between_writes B x).
  { apply write_ticks_between; [exact HB1|]. now apply started_between. }
  pose proof (write_tick_step B t x Hinv) as Hstep. cbv zeta in Hstep.
  fold y in Hstep.
  destruct Hinv as (Hrun & HB & Hlt).
  split; [exact Hlt|]. split; [|split].
  - intros Heq. rewrite (proj2 (Z.eqb_eq _ _) Heq) in Hstep.
    set (w' := with_batch (fst x)
                 (push_back (current_batch_ (fst x)) (to_ilp_format t))) in *.
    assert (Hne : current_batch_ w' <> []).
    { unfold w', push_back. simpl. destruct (current_batch_ (fst x)); discriminate. }
    destruct (flush_proceeds w' (snd x) Hne Hrun) as [Hfst Hrep].
    rewrite <- Hstep in Hfst, Hrep. split.
    + rewrite Hrep. unfold reports at 1. simpl.
      unfold w'. simpl. rewrite vsize_push_back.
      unfold pending in Heq. rewrite Heq. reflexivity.
    + unfold pending. rewrite Hfst. reflexivity.
  - intros Hneq. rewrite (proj2 (Z.eqb_neq _ _) Hneq) in Hstep.
    rewrite Hstep. unfold reports, pending, stats, payloads. simpl.
    rewrite vsize_push_back. repeat split; reflexivity.
  - intros Hne Hrun'.
    destruct (flush_proceeds w env Hne Hrun') as [Hfst _].
    unfold pending. rewrite Hfst. reflexivity.
Qed.

(** C1 on a writer of batch size 2 whose sends all fail. *)
Lemma flush_exactly_at_batch_size_witness :
  let x := St.exec (write_ticks [reliance_tick])
             (started small_config 3, env_failing) in
  let y := St.exec (write_tick reliance_tick) x in
  pending x < 2
  /\ (pending x + 1 = 2 -> reports y = (reports x ++ [2])%list /\ pending y = 0)
  /\ (pending x + 1 <> 2 ->
      reports y = reports x /\ pending y = pending x + 1
      /\ stats y = stats x /\ payloads y = payloads x)
  /\ (current_batch_ one_pending <> [] -> running_ one_pending = true ->
      pending (St.exec flush (one_pending, env_failing)) = 0).
Proof.
  apply (flush_exactly_at_batch_size small_config 3 env_failing
           [reliance_tick] reliance_tick
           one_pending env_failing).
  simpl. lia.
Defined.

(** C2: a flush of a non-empty batch by a running writer whose send
    succeeds adds the batch length to [lines_sent] and 1 to
    [batches_sent] (in [size_t] arithmetic, hence exactly whenever the
    sums fit in 64 bits) and leaves [errors] alone; one whose send fails
    adds 1 to [errors] and leaves the other two counters alone. *)
Theorem flush_counters (w : ILPWriter) (env : Env) :
  current_batch_ w <> [] -> running_ w = true ->
  let n := vsize (current_batch_ w) in
  let st := stats_ w in
  let st' := stats (St.exec flush (w, env)) in
  if send_succeeds (w, env)
  then lines_sent st' = (lines_sent st + n) mod 2 ^ 64
       /\ batches_sent st' = (batches_sent st + 1) mod 2 ^ 64
       /\ errors st' = errors st
       /\ (0 <= lines_sent st -> lines_sent st + n < 2 ^ 64 ->
           lines_sent st' = lines_sent st + n)
       /\ (0 <= batches_sent st -> batches_sent st + 1 < 2 ^ 64 ->
           batches_sent st' = batches_sent st + 1)
  else errors st' = (errors st + 1) mod 2 ^ 64
       /\ (0 <= errors st -> errors st + 1 < 2 ^ 64 ->
           errors st' = errors st + 1)
       /\ lines_sent st' = lines_sent st
       /\ batches_sent st' = batches_sent st.
Proof.
  intros Hne Hrun n st st'.
  destruct (flush_proceeds w env Hne Hrun) as [Hfst _].
  assert (Hst : st' = count_send (send_succeeds (w, env)) n st).
  { unfold st', stats. rewrite Hfst. reflexivity. }
  pose proof (vsize_nonneg (current_batch_ w)) as Hn. fold n in Hn.
  rewrite Hst. destruct (send_succeeds (w, env)); simpl.
  - repeat split; try reflexivity.
    + intros H0 Hfit. apply wrap64_small. unfold two64. lia.
    + intros H0 Hfit. apply wrap64_small. unfold two64. lia.
  - repeat split; try reflexivity.
    intros H0 Hfit. apply wrap64_small. unfold two64. lia.
Qed.

(** C2 on a one-line batch, once with a successful and once with a failing
    send. *)
Lemma flush_counters_witness :
  stats (St.exec flush (one_pending, env_sending))
  = {| lines_sent := 1; batches_sent := 1; errors := 0 |}
  /\ stats (St.exec flush (one_pending, env_failing))
     = {| lines_sent := 0; batches_sent := 0; errors := 1 |}.
Proof.
  assert (Hne : current_batch_ one_pending <> []) by discriminate.
  pose proof (flush_counters one_pending env_sending Hne eq_refl) as Hs.
  pose proof (flush_counters one_pending env_failing Hne eq_refl) as Hf.
  cbv zeta in Hs, Hf.
  change (send_succeeds (one_pending, env_sending)) with true in Hs.
  change (send_succeeds (one_pending, env_failing)) with false in Hf.
  destruct Hs as (H1 & H2 & H3 & _). destruct Hf as (H4 & _ & H5 & H6).
  destruct (stats (St.exec flush (one_pending, env_sending))) as [a b c].
  destruct (stats (St.exec flush (one_pending, env_failing))) as [d e f].
  simpl in *. subst. split; reflexivity.
Defined.

End WriterFacts.

(* ================================================================== *)
(** * Properties: latency metrics *)

Module MetricsFacts.

Import Spec Cpp Client CppFacts.

Lemma to_int64_small (z : Z) : 0 <= z < 2 ^ 63 -> to_int64 z = z.
Proof.
  intros H. unfold to_int64. rewrite wrap64_small by (unfold two64; lia).
  destruct (Z.ltb_spec z (2 ^ 63)); lia.
Qed.

(** The running average computed by a non-empty update, when nothing
    wraps. *)
Lemma update_metrics_avg (latency : Z) (m : LatencyMetrics) :
  in_range latency m ->
  avg_api_latency (update_metrics false latency m)
  = (avg_api_latency m * request_count m + latency) / (request_count m + 1).
Proof.
  intros (Hl & Ha & Hc & Hc1 & Hsum). unfold update_metrics. simpl.
  assert (H64 : two64 = 2 ^ 64) by reflexivity.
  assert (Hprod : 0 <= avg_api_latency m * request_count m) by nia.
  rewrite (wrap64_small (request_count m + 1)) by lia.
  replace (request_count m + 1 - 1) with (request_count m) by lia.
  rewrite (wrap64_small (avg_api_latency m)) by lia.
  rewrite (wrap64_small (request_count m)) by lia.
  rewrite (wrap64_small (avg_api_latency m * request_count m)) by lia.
  rewrite (wrap64_small latency) by lia.
  rewrite (wrap64_small (avg_api_latency m * request_count m + latency)) by lia.
  apply to_int64_small. split.
  - apply Z.div_pos; lia.
  - apply Z.div_lt_upper_bound; [lia|]. nia.
Qed.

(** An update for an empty response changes none of the three latencies. *)
Lemma update_metrics_empty (latency : Z) (m : LatencyMetrics) :
  let m' := update_metrics true latency m in
  avg_api_latency m' = avg_api_latency m
  /\ min_api_latency m' = min_api_latency m
  /\ max_api_latency m' = max_api_latency m.
Proof. repeat split. Qed.

(** Once established, the invariant survives every update whose
    arithmetic does not wrap. *)
Lemma update_metrics_preserves (response_empty : bool) (latency : Z)
    (m : LatencyMetrics) :
  in_range latency m -> min_avg_max m ->
  min_avg_max (update_metrics response_empty latency m).
Proof.
  intros Hr Hinv. destruct response_empty; [exact Hinv|].
  unfold min_avg_max. rewrite (update_metrics_avg latency m Hr).
  destruct Hr as (Hl & Ha & Hc & Hc1 & Hsum).
  unfold min_avg_max in Hinv. unfold update_metrics. simpl.
  split.
  - apply Z.div_le_lower_bound; [lia|].
    destruct (Z.ltb_spec latency (min_api_latency m)); nia.
  - apply Z.div_le_upper_bound; [lia|].
    destruct (Z.gtb_spec latency (max_api_latency m)); nia.
Qed.

(** The first request being answered establishes the invariant. *)
Lemma first_sample_establishes (latency : Z) :
  0 <= latency < 2 ^ 63 ->
  min_avg_max (update_metrics false latency initial_metrics).
Proof.
  intros Hl. unfold min_avg_max.
  rewrite update_metrics_avg
    by (unfold in_range, initial_metrics; simpl; lia).
  unfold update_metrics, initial_metrics, int64_max. simpl.
  rewrite Z.div_1_r.
  change (2 ^ 63) with 9223372036854775808 in Hl.
  repeat match goal with
         | |- context [?a <? ?b] => destruct (Z.ltb_spec a b)
         | |- context [?a >? ?b] => destruct (Z.gtb_spec a b)
         end; lia.
Qed.

(** C3 fails on the code: after a failed request followed by an answered
    one (latency 100 us) the metrics hold one successful sample, yet the
    average is 50 us, below the minimum of 100 us.  The average divides by
    [request_count], which also counts the failed request. *)
Theorem average_below_minimum_after_failure :
  let st := St.exec (fetch_cycle [failed_request; answered_request])
              initial_client in
  metrics_ st
  = {| avg_api_latency := 50;
       max_api_latency := 100;
       min_api_latency := 100;
       request_count := 2;
       error_count := 1 |}
  /\ metrics_ st = metrics_after [(true, 30000000); (false, 100)]
  /\ request_count (metrics_ st) - error_count (metrics_ st) = 1
  /\ avg_api_latency (metrics_ st) < min_api_latency (metrics_ st).
Proof.
  vm_compute. repeat split; reflexivity.
Qed.

End MetricsFacts.

(* ================================================================== *)
(** * Properties: the rate limiter *)

Module RateLimiterFacts.

Import Spec Cpp Client Chrono CppFacts.

Lemma count_recent_from (ago : Z) (times : list Z) (acc : Z) :
  fold_left
    (fun recent time => if time >? ago then recent + 1 else recent) times acc
  = acc + Z.of_nat (List.length (filter (fun t => ago <? t) times)).
Proof.
  revert acc. induction times as [|t rest IH]; intros acc; simpl.
  - lia.
  - rewrite IH. rewrite Z.gtb_ltb.
    destruct (ago <? t); simpl List.length; lia.
Qed.

Lemma can_make_request_window (now : Z) (st : ClientState) :
  St.eval (can_make_request now) st
  = (in_window now (request_times_ st) <? MAX_REQUESTS_PER_DAY).
Proof.
  unfold St.eval, can_make_request, St.bind, St.get, St.ret, count_recent,
    in_window. simpl. rewrite count_recent_from. reflexivity.
Qed.

Lemma can_make_request_pure (now : Z) (st : ClientState) :
  St.exec (can_make_request now) st = st.
Proof. reflexivity. Qed.

Lemma record_request_times (now : Z) (st : ClientState) :
  request_times_ (St.exec (record_request now) st)
  = filter (fun t => negb (t <=? now - hours24))
      (request_times_ st ++ [now]).
Proof. reflexivity. Qed.

Lemma hours24_pos : 0 < hours24.
Proof. reflexivity. Qed.

(** Records taken within one 24-hour span starting at [lo] are all kept;
    what was stored before can only shrink. *)
Lemma record_requests_keep (lo : Z) (ts : list Z) :
  forall (old pre : list Z) (m : LatencyMetrics),
    (forall t, In t (pre ++ ts) -> lo <= t < lo + hours24) ->
    exists old',
      (forall e, In e old' -> In e old)
      /\ request_times_
           (St.exec (record_requests ts) (mkClient (old ++ pre) m))
         = (old' ++ pre ++ ts)%list.
Proof.
  induction ts as [|t rest IH]; intros old pre m Hspan.
  - exists old. split; [auto|]. simpl. now rewrite app_nil_r.
  - simpl. unfold St.exec, St.bind.
    unfold record_request at 1. unfold St.modify. simpl.
    unfold push_back.
    rewrite <- app_assoc. rewrite !filter_app.
    assert (Hkeep : forall l, (forall x, In x l -> In x (pre ++ t :: rest)) ->
              filter (fun time => negb (time <=? t - hours24)) l = l).
    { intros l Hl. apply forallb_filter_id. apply forallb_forall.
      intros x Hx. pose proof (Hspan x (Hl x Hx)) as Hxs.
      assert (Ht : lo <= t < lo + hours24).
      { apply Hspan. apply in_or_app. right. now left. }
      destruct (Z.leb_spec x (t - hours24)); [lia|reflexivity]. }
    rewrite (Hkeep pre) by (intros x Hx; apply in_or_app; now left).
    rewrite (Hkeep [t])
      by (intros x [Hx|[]]; subst; apply in_or_app; right; now left).
    set (old1 := filter (fun time => negb (time <=? t - hours24)) old).
    destruct (IH old1 (pre ++ [t])%list m) as (old' & Hin & Heq).
    { intros x Hx. apply Hspan. rewrite <- app_assoc in Hx. exact Hx. }
    exists old'. split.
    + intros e He. specialize (Hin e He). unfold old1 in Hin.
      apply filter_In in Hin. tauto.
    + unfold St.exec in Heq. rewrite Heq.
      rewrite <- !app_assoc. reflexivity.
Qed.

Lemma filter_none {A : Type} (p : A -> bool) (l : list A) :
  (forall x, In x l -> p x = false) -> filter p l = [].
Proof.
  induction l as [|a l IH]; intros H; simpl; [reflexivity|].
  rewrite (H a) by now left. apply IH. intros x Hx. apply H. now right.
Qed.

Lemma filter_all {A : Type} (p : A -> bool) (l : list A) :
  (forall x, In x l -> p x = true) -> filter p l = l.
Proof.
  intros H. apply forallb_filter_id. now apply forallb_forall.
Qed.

Lemma filter_drops {A : Type} (p : A -> bool) (l : list A) (a : A) :
  In a l -> p a = false ->
  (List.length (filter p l) < List.length l)%nat.
Proof.
  induction l as [|b l IH]; intros Hin Hp; [contradiction|].
  simpl. destruct Hin as [->|Hin].
  - rewrite Hp. pose proof (filter_length_le p l). lia.
  - specialize (IH Hin Hp). destruct (p b); simpl; lia.
Qed.

(** C4, as amended: after 25 records taken within one 24-hour span (on
    top of older records), [can_make_request] returns false at every
    instant at which the oldest of them is less than 24 hours in the past
    and true from the instant it is exactly 24 hours old; in every state
    permission is granted iff fewer than 25 stored timestamps are strictly
    newer than [now - 24h]. *)
Theorem quota_window (st0 : ClientState) (ts : list Z) (oldest now : Z) :
  Z.of_nat (List.length ts) = MAX_REQUESTS_PER_DAY ->
  In oldest ts ->
  (forall t, In t ts -> oldest <= t < oldest + hours24) ->
  (forall e, In e (request_times_ st0) -> e <= oldest) ->
  let st := St.exec (record_requests ts) st0 in
  (now - oldest < hours24 -> St.eval (can_make_request now) st = false)
  /\ (hours24 <= now - oldest -> St.eval (can_make_request now) st = true)
  /\ (forall st' : ClientState,
         St.eval (can_make_request now) st' = true
         <-> in_window now (request_times_ st') < MAX_REQUESTS_PER_DAY).
Proof.
  intros Hlen Hin Hspan Hold st.
  destruct st0 as [old m]. simpl in Hold.
  destruct (record_requests_keep oldest ts old [] m) as (old' & Hsub & Heq).
  { intros t Ht. apply Hspan. exact Ht. }
  rewrite app_nil_r in Heq. simpl in Heq. fold st in Heq.
  assert (Hwin : in_window now (request_times_ st)
                 = Z.of_nat (List.length
                      (filter (fun t => now - hours24 <? t) old'))
                   + Z.of_nat (List.length
                      (filter (fun t => now - hours24 <? t) ts))).
  { unfold in_window. rewrite Heq, filter_app, length_app. lia. }
  split; [|split].
  - intros Hyoung. rewrite can_make_request_window, Hwin.
    rewrite (filter_all _ ts).
    + apply Z.ltb_ge. lia.
    + intros x Hx. specialize (Hspan x Hx). apply Z.ltb_lt. lia.
  - intros Haged. rewrite can_make_request_window, Hwin.
    rewrite (filter_none _ old').
    + apply Z.ltb_lt. simpl List.length.
      pose proof (filter_drops (fun t => now - hours24 <? t) ts oldest Hin)
        as Hdrop.
      assert (Hf : (now - hours24 <? oldest) = false) by (apply Z.ltb_ge; lia).
      specialize (Hdrop Hf). lia.
    + intros x Hx. apply Z.ltb_ge. specialize (Hold x (Hsub x Hx)). lia.
  - intros st'. rewrite can_make_request_window. apply Z.ltb_lt.
Qed.

(** C4, as amended, on a burst of 25 requests, one microsecond before the
    first of them is 24 hours old. *)
Lemma quota_window_witness :
  let st := St.exec (record_requests (burst burst_start)) initial_client in
  (burst_start + hours24 - 1 - burst_start < hours24 ->
   St.eval (can_make_request (burst_start + hours24 - 1)) st = false)
  /\ (hours24 <= burst_start + hours24 - 1 - burst_start ->
      St.eval (can_make_request (burst_start + hours24 - 1)) st = true)
  /\ (forall st' : ClientState,
         St.eval (can_make_request (burst_start + hours24 - 1)) st' = true
         <-> in_window (burst_start + hours24 - 1) (request_times_ st')
             < MAX_REQUESTS_PER_DAY).
Proof.
  apply (quota_window initial_client (burst burst_start) burst_start
           (burst_start + hours24 - 1)).
  - reflexivity.
  - left. reflexivity.
  - intros t Ht. vm_compute in Ht.
    repeat (destruct Ht as [Ht|Ht]; [subst t; vm_compute; split; congruence|]).
    contradiction.
  - intros e [].
Defined.

(** C4 as stated fails at the boundary: 25 requests recorded from
    [burst_start] on, one per second; exactly 24 hours after the first of
    them it is not yet more than 24 hours in the past, and
    [can_make_request] already returns true (one microsecond earlier it
    returns false). *)
Lemma quota_reopens_at_24h :
  let st := St.exec (record_requests (burst burst_start)) initial_client in
  let now := burst_start + hours24 in
  List.length (request_times_ st) = 25%nat
  /\ hd 0 (request_times_ st) = burst_start
  /\ (now - burst_start >? hours24) = false
  /\ St.eval (can_make_request now) st = true
  /\ St.eval (can_make_request (now - 1)) st = false.
Proof.
  vm_compute. repeat split; reflexivity.
Qed.

(** C5, as amended: [can_make_request] never modifies the client (stored
    timestamps older than 24 hours stay until the next record); the
    pruning is done by [record_request], after which every stored
    timestamp is strictly newer than its [now - 24h], and which changes
    nothing but the stored timestamps. *)
Theorem check_is_pure_record_prunes (now : Z) (st : ClientState) :
  St.exec (can_make_request now) st = st
  /\ (forall t, In t (request_times_ (St.exec (record_request now) st)) ->
        now - hours24 < t)
  /\ metrics_ (St.exec (record_request now) st) = metrics_ st.
Proof.
  split; [reflexivity|]. split; [|reflexivity].
  intros t Ht. rewrite record_request_times in Ht.
  apply filter_In in Ht. destruct Ht as [_ Ht].
  destruct (Z.leb_spec t (now - hours24)); [discriminate|lia].
Qed.

(** C5 as stated fails: a request recorded at [burst_start] is still
    stored after a check made two days later, although it is then more
    than 24 hours old. *)
Lemma check_does_not_prune :
  let st := St.exec (record_request burst_start) initial_client in
  let now := burst_start + 2 * hours24 in
  request_times_ st = [burst_start]
  /\ St.eval (can_make_request now) st = true
  /\ request_times_ (St.exec (can_make_request now) st) = [burst_start]
  /\ (burst_start <? now - hours24) = true.
Proof.
  vm_compute. repeat split; reflexivity.
Qed.

End RateLimiterFacts.

(* ================================================================== *)
(** * Properties: parsing a response *)

Module ParserFacts.

Import Spec Cpp Tick Extractor Chrono Parser CppFacts StringFacts.

Section WithNumericConversions.

Variable stod : string -> option Double.double.
Variable stoull : string -> option Z.

(** The ticks appended by [synthesize_ticks]. *)
Lemma synthesize_ticks_shape (symbol : string) (o h l c : Double.double)
    (volume : Z) (ticks : list TickData) (clk : Clock) :
  exists r1 r2 r3 r4,
    St.eval (synthesize_ticks symbol o h l c volume ticks) clk
    = (ticks
       ++ expected_ticks (fst (split_symbol symbol))
            (snd (split_symbol symbol)) o h l c volume
            (reading clk (reads clk)) r1 r2 r3 r4)%list
    /\ r1 = reading clk (S (reads clk)).
Proof.
  unfold synthesize_ticks, expected_ticks, St.eval.
  destruct (split_symbol symbol) as [sym exch]. simpl fst. simpl snd.
  unfold St.bind, stamped_tick, now, St.ret, push_back. simpl.
  destruct (Double.neb h o); destruct (Double.neb l o && Double.neb l h)%bool;
    simpl; exists (reading clk (S (reads clk))).
  - do 3 eexists. split; [|reflexivity].
    repeat rewrite <- app_assoc. simpl. reflexivity.
  - eexists. exists 0. eexists. split; [|reflexivity].
    repeat rewrite <- app_assoc. simpl. reflexivity.
  - exists 0. do 2 eexists. split; [|reflexivity].
    repeat rewrite <- app_assoc. simpl. reflexivity.
  - exists 0, 0. eexists. split; [|reflexivity].
    repeat rewrite <- app_assoc. simpl. reflexivity.
Qed.

(** A call that returns [true] converted all five fields of the located
    block and appended the synthesised ticks. *)
Lemma parse_success_shape (json symbol : string) (ticks ticks' : list TickData)
    (clk : Clock) :
  St.eval (parse_time_series_response stod stoull json symbol ticks) clk = (true, ticks') ->
  exists block o h l c v,
    locate_data_block json = Some block
    /\ stod (extract_json_value block "1. open") = Some o
    /\ stod (extract_json_value block "2. high") = Some h
    /\ stod (extract_json_value block "3. low") = Some l
    /\ stod (extract_json_value block "4. close") = Some c
    /\ stoull (extract_json_value block "5. volume") = Some v
    /\ ticks' = St.eval (synthesize_ticks symbol o h l c (wrap64 v) ticks) clk.
Proof.
  unfold parse_time_series_response, St.eval.
  destruct (empty json); [discriminate|].
  destruct (contains json "Error Message" || contains json "Invalid API call")%bool;
    [discriminate|].
  destruct (contains json "Thank you for using Alpha Vantage"
            && contains json "call frequency")%bool; [discriminate|].
  destruct (locate_data_block json) as [block|] eqn:Hb; [|discriminate].
  destruct (empty (extract_json_value block "1. open")
            || empty (extract_json_value block "4. close")
            || empty (extract_json_value block "5. volume"))%bool;
    [discriminate|].
  unfold convert_fields.
  destruct (stod (extract_json_value block "1. open")) as [o|] eqn:Ho;
    [|discriminate].
  destruct (stod (extract_json_value block "2. high")) as [h|] eqn:Hh;
    [|discriminate].
  destruct (stod (extract_json_value block "3. low")) as [l|] eqn:Hl;
    [|discriminate].
  destruct (stod (extract_json_value block "4. close")) as [c|] eqn:Hc;
    [|discriminate].
  destruct (stoull (extract_json_value block "5. volume")) as [v|] eqn:Hv;
    [|discriminate].
  unfold St.bind, St.ret.
  destruct (synthesize_ticks symbol o h l c (wrap64 v) ticks clk)
    as [tk clk'] eqn:Hs.
  simpl. intros H. injection H as <-.
  exists block, o, h, l, c, v. unfold St.eval. rewrite Hs.
  repeat split; assumption || reflexivity.
Qed.

(** A call that returns [false] leaves the output vector and the clock
    untouched. *)
Lemma parse_failure_appends_nothing (json symbol : string)
    (ticks ticks' : list TickData) (clk clk' : Clock) :
  parse_time_series_response stod stoull json symbol ticks clk
  = ((false, ticks'), clk') ->
  ticks' = ticks /\ clk' = clk.
Proof.
  unfold parse_time_series_response.
  repeat match goal with
         | |- context [if ?b then _ else _] =>
             destruct b; [unfold St.ret; intros H; injection H as <- <-;
                          split; reflexivity|]
         end.
  destruct (locate_data_block json) as [block|];
    [|unfold St.ret; intros H; injection H as <- <-; split; reflexivity].
  repeat match goal with
         | |- context [if ?b then _ else _] =>
             destruct b; [unfold St.ret; intros H; injection H as <- <-;
                          split; reflexivity|]
         end.
  destruct (convert_fields _ _ _ _ _ _ _) as [[[[[o h] l] c] v]|];
    [|unfold St.ret; intros H; injection H as <- <-; split; reflexivity].
  unfold St.bind, St.ret.
  destruct (synthesize_ticks _ _ _ _ _ _ _ _). discriminate.
Qed.

(** C7: a payload that is empty, carries an error marker or carries the
    throttle notice makes [parse_time_series_response] return [false] and
    append no tick. *)
Theorem rejected_payload_yields_no_tick (json symbol : string)
    (ticks : list TickData) (clk : Clock) :
  json = EmptyString \/ has_error_marker json \/ has_throttle_marker json ->
  parse_time_series_response stod stoull json symbol ticks clk
  = ((false, ticks), clk).
Proof.
  intros H. unfold parse_time_series_response.
  destruct (empty json) eqn:He; [reflexivity|].
  destruct H as [->|[[H|H]|[H1 H2]]].
  - discriminate.
  - apply contains_occurs in H. rewrite H. reflexivity.
  - apply contains_occurs in H. rewrite H, orb_true_r. reflexivity.
  - apply contains_occurs in H1, H2. rewrite H1, H2.
    destruct (contains json "Error Message" || contains json "Invalid API call")%bool;
      reflexivity.
Qed.

(** C10: a successful call appends between 2 and 4 ticks; the first
    carries the converted open price and the last the converted close
    price; every tick in between has a price different from the prices of
    all ticks emitted before it. *)
Theorem successful_parse_appends_two_to_four (json symbol : string)
    (ticks ticks' : list TickData) (clk : Clock) :
  St.eval (parse_time_series_response stod stoull json symbol ticks) clk
  = (true, ticks') ->
  exists (new : list TickData) (block : string) (o c : Double.double),
    ticks' = (ticks ++ new)%list
    /\ (2 <= List.length new <= 4)%nat
    /\ locate_data_block json = Some block
    /\ stod (extract_json_value block "1. open") = Some o
    /\ stod (extract_json_value block "4. close") = Some c
    /\ option_map price (nth_error new 0) = Some o
    /\ option_map price (nth_error new (List.length new - 1)) = Some c
    /\ inner_prices_fresh new.
Proof.
  intros H.
  destruct (parse_success_shape json symbol ticks ticks' clk H)
    as (block & o & h & l & c & v & Hb & Ho & Hh & Hl & Hc & Hv & Ht).
  destruct (synthesize_ticks_shape symbol o h l c (wrap64 v) ticks clk)
    as (r1 & r2 & r3 & r4 & Hs & _).
  rewrite Hs in Ht. clear Hs.
  eexists. exists block, o, c.
  split; [exact Ht|]. clear Ht.
  unfold expected_ticks, inner_prices_fresh.
  destruct (Double.neb h o) eqn:Hho;
    destruct (Double.neb l o) eqn:Hlo;
    destruct (Double.neb l h) eqn:Hlh; simpl;
    (split; [lia|]); repeat (split; [assumption || reflexivity|]);
    intros i j ti tj Hji Hi Hti Htj;
    destruct i as [|[|[|i]]]; simpl in Hi; try lia;
    destruct j as [|[|j]]; try lia;
    simpl in Hti, Htj; injection Hti as <-; injection Htj as <-;
    simpl; assumption.
Qed.

(** C8: a response that passes the three rejection tests and whose
    located entry converts to open 100, high 105, low 100, close 102 and
    volume 4000 yields [true] and exactly three ticks (open, high, close),
    each of quantity 1000 and side B, stamped [base], [base + 1] and
    [base + 3], where [base] is the reading of the clock. *)
Theorem scenario_open_high_close (json symbol block : string)
    (ticks : list TickData) (clk : Clock) :
  stod EmptyString = None -> stoull EmptyString = None ->
  json <> EmptyString ->
  ~ has_error_marker json -> ~ has_throttle_marker json ->
  locate_data_block json = Some block ->
  stod (extract_json_value block "1. open") = Some (Double.of_Z 100) ->
  stod (extract_json_value block "2. high") = Some (Double.of_Z 105) ->
  stod (extract_json_value block "3. low") = Some (Double.of_Z 100) ->
  stod (extract_json_value block "4. close") = Some (Double.of_Z 102) ->
  stoull (extract_json_value block "5. volume") = Some 4000 ->
  let base := reading clk (reads clk) in
  0 <= base -> base + 3 < 2 ^ 64 ->
  exists new : list TickData,
    St.eval (parse_time_series_response stod stoull json symbol ticks) clk
    = (true, (ticks ++ new)%list)
    /\ map observed new
       = [(Double.of_Z 100, 1000, "B"%char, base);
          (Double.of_Z 105, 1000, "B"%char, base + 1);
          (Double.of_Z 102, 1000, "B"%char, base + 3)]
    /\ Forall (fun t => (Tick.symbol t, Tick.exchange t) = split_symbol symbol)
         new.
Proof.
  intros Hde Hue Hne Herr Hthr Hb Ho Hh Hl Hc Hv base H0 H3.
  destruct (synthesize_ticks_shape symbol (Double.of_Z 100) (Double.of_Z 105)
              (Double.of_Z 100) (Double.of_Z 102) (wrap64 4000) ticks clk)
    as (r1 & r2 & r3 & r4 & Hs & _).
  exists (expected_ticks (fst (split_symbol symbol)) (snd (split_symbol symbol))
            (Double.of_Z 100) (Double.of_Z 105) (Double.of_Z 100)
            (Double.of_Z 102) (wrap64 4000) base r1 r2 r3 r4).
  assert (E1 : Double.neb (Double.of_Z 105) (Double.of_Z 100) = true)
    by reflexivity.
  assert (E2 : Double.neb (Double.of_Z 100) (Double.of_Z 100) = false)
    by reflexivity.
  assert (E3 : Double.gtb (Double.of_Z 102) (Double.of_Z 100) = true)
    by reflexivity.
  assert (E4 : wrap64 4000 / 4 = 1000) by reflexivity.
  split; [|split].
  - unfold St.eval, parse_time_series_response.
    destruct (empty json) eqn:He; [destruct json; [congruence|discriminate]|].
    destruct (contains json "Error Message") eqn:H1;
      [exfalso; apply Herr; left; now apply contains_occurs|].
    destruct (contains json "Invalid API call") eqn:H2;
      [exfalso; apply Herr; right; now apply contains_occurs|].
    cbv [orb]. cbv iota.
    destruct (contains json "Thank you for using Alpha Vantage"
              && contains json "call frequency")%bool eqn:H4.
    { exfalso. apply andb_prop in H4. destruct H4 as [H4 H5].
      apply Hthr. split; now apply contains_occurs. }
    rewrite Hb.
    assert (Hnonempty : forall s d, stod s = Some d -> empty s = false).
    { intros s d Hsd. destruct s; [congruence|reflexivity]. }
    rewrite (Hnonempty _ _ Ho), (Hnonempty _ _ Hc).
    assert (Hvne : empty (extract_json_value block "5. volume") = false).
    { destruct (extract_json_value block "5. volume"); [congruence|reflexivity]. }
    rewrite Hvne. cbv [orb]. cbv iota.
    unfold convert_fields. rewrite Ho, Hh, Hl, Hc, Hv.
    unfold St.bind, St.ret. cbv beta. unfold St.eval in Hs.
    destruct (synthesize_ticks symbol (Double.of_Z 100) (Double.of_Z 105)
                (Double.of_Z 100) (Double.of_Z 102) (wrap64 4000) ticks clk)
      as [tk clk'].
    simpl in Hs. simpl. rewrite Hs. reflexivity.
  - unfold expected_ticks. rewrite E1, E2, E3, E4.
    cbv [andb]. cbn [app map].
    unfold observed, set_timestamp_us, make_tick.
    cbn [price quantity side timestamp_us].
    rewrite !wrap64_small by (unfold two64; lia).
    reflexivity.
  - unfold expected_ticks. rewrite E1, E2.
    cbv [andb]. cbn [app].
    destruct (split_symbol symbol) as [sym exch].
    repeat constructor.
Qed.

End WithNumericConversions.

End ParserFacts.

(* ================================================================== *)
(** * The scenarios, run on concrete inputs *)

Module Scenarios.

Import Spec Cpp Tick Extractor Chrono Parser CppFacts StringFacts ParserFacts.
Import ExtractorFacts.

Lemma not_at_0 (pat s : string) (m : nat) :
  prefix pat s = false -> occurs_at m pat s -> (1 <= m)%nat.
Proof.
  intros Hp Hocc. destruct m as [|m]; [|lia].
  apply occurs_at_0 in Hocc. congruence.
Qed.

(** The two examples of C6, obtained from the case analysis: an unquoted
    123.45 followed by a blank and a comma, and a quoted B. *)
Lemma extract_json_value_cases_witness :
  extract_json_value close_blob "4. close" = "123.45"
  /\ extract_json_value side_blob "side" = "B".
Proof.
  split.
  - destruct (extract_json_value_cases close_blob "4. close") as [_ Hcases].
    destruct (Hcases "{" " " ("123.45 " ++ ", " ++ quote ++ "5. volume"
                               ++ quote ++ ": 4000}"))
      as (_ & _ & _ & Hraw);
      [reflexivity
      |intros m Hm; apply (not_at_0 _ _ m) in Hm; [exact Hm|reflexivity]
      |reflexivity|reflexivity|].
    apply (Hraw "123.45 " (", " ++ quote ++ "5. volume" ++ quote ++ ": 4000}")
             "123.45" " "); reflexivity.
  - destruct (extract_json_value_cases side_blob "side") as [_ Hcases].
    destruct (Hcases "{" EmptyString (quote ++ "B" ++ quote ++ "}"))
      as (_ & Hquoted & _);
      [reflexivity
      |intros m Hm; apply (not_at_0 _ _ m) in Hm; [exact Hm|reflexivity]
      |reflexivity|reflexivity|].
    apply (Hquoted "B" "}"); reflexivity.
Defined.

Lemma absent (pat s : string) : contains s pat = false -> ~ occurs pat s.
Proof.
  intros H Hocc. apply contains_occurs in Hocc. congruence.
Qed.

(** C7 on the provider's answer to an invalid call. *)
Lemma rejected_payload_yields_no_tick_witness :
  parse_time_series_response Fixture.stod Fixture.stoull
    Fixture.error_response "RELIANCE.BSE" [] scenario_clock
  = ((false, []), scenario_clock).
Proof.
  apply (rejected_payload_yields_no_tick Fixture.stod Fixture.stoull).
  right. left. left. apply contains_occurs. vm_compute. reflexivity.
Defined.

(** C10 on the daily response: the parse succeeds there. *)
Lemma successful_parse_appends_two_to_four_witness :
  exists (new : list TickData) (block : string) (o c : Double.double),
    scenario_ticks = ([] ++ new)%list
    /\ (2 <= List.length new <= 4)%nat
    /\ locate_data_block Fixture.daily_response = Some block
    /\ Fixture.stod (extract_json_value block "1. open") = Some o
    /\ Fixture.stod (extract_json_value block "4. close") = Some c
    /\ option_map price (nth_error new 0) = Some o
    /\ option_map price (nth_error new (List.length new - 1)) = Some c
    /\ inner_prices_fresh new.
Proof.
  apply (successful_parse_appends_two_to_four Fixture.stod Fixture.stoull
           Fixture.daily_response "RELIANCE.BSE" [] scenario_ticks
           scenario_clock).
  vm_compute. reflexivity.
Defined.

(** C8 on the daily response, with the decimal conversions and a clock
    reading 1700000000000000 us. *)
Lemma scenario_open_high_close_witness :
  exists new : list TickData,
    St.eval
      (parse_time_series_response Fixture.stod Fixture.stoull
         Fixture.daily_response "RELIANCE.BSE" [])
      scenario_clock
    = (true, new)
    /\ map observed new
       = [(Double.of_Z 100, 1000, "B"%char, 1700000000000000);
          (Double.of_Z 105, 1000, "B"%char, 1700000000000001);
          (Double.of_Z 102, 1000, "B"%char, 1700000000000003)]
    /\ Forall (fun t => (symbol t, exchange t) = ("RELIANCE", "BSE")) new.
Proof.
  destruct (scenario_open_high_close Fixture.stod Fixture.stoull
              Fixture.daily_response "RELIANCE.BSE" scenario_block []
              scenario_clock)
    as (new & Hparse & Hobs & Hsym);
    try (vm_compute; reflexivity).
  - discriminate.
  - intros [H|H]; revert H; apply absent; vm_compute; reflexivity.
  - intros [H _]; revert H; apply absent; vm_compute; reflexivity.
  - vm_compute. discriminate.
  - exists new. split; [exact Hparse|]. split; [exact Hobs|exact Hsym].
Defined.

End Scenarios.

(* ================================================================== *)
(** * Properties: runs of the batched line writer *)

Module WriterRunFacts.

Import Spec Cpp Tick Writer CppFacts StringFacts WriterFacts.

Lemma concat_all_app (a b : list string) :
  concat_all (a ++ b) = concat_all a ++ concat_all b.
Proof.
  induction a as [|x a IH]; simpl; [reflexivity|].
  now rewrite IH, append_assoc.
Qed.

Lemma join_lines_app (a b : list string) :
  join_lines (a ++ b) = join_lines a ++ join_lines b.
Proof.
  induction a as [|x a IH]; simpl; [reflexivity|].
  rewrite IH, append_assoc. reflexivity.
Qed.

(** With a valid descriptor a proceeding flush hands the joined batch to
    [send]. *)
Lemma flush_payloads (w : ILPWriter) (env : Env) :
  current_batch_ w <> [] -> running_ w = true -> 0 <= socket_fd_ w ->
  payloads (St.exec flush (w, env))
  = (payloads (w, env) ++ [join_lines (current_batch_ w)])%list.
Proof.
  intros Hne Hrun Hfd. unfold St.exec, flush.
  destruct (current_batch_ w) as [|l ls] eqn:Hb; [congruence|].
  rewrite Hrun. cbn [negb orb]. rewrite <- Hb.
  unfold send_batch. rewrite (proj2 (Z.ltb_ge _ _) Hfd).
  unfold St.bind, sys_send.
  destruct (send_result env (List.length (sent_payloads env)) <? 0);
    reflexivity.
Qed.

(** A flush never touches the configuration, the descriptor or the
    running flag. *)
Lemma flush_frame (x : World) :
  let y := St.exec flush x in
  config_ (fst y) = config_ (fst x)
  /\ running_ (fst y) = running_ (fst x)
  /\ socket_fd_ (fst y) = socket_fd_ (fst x).
Proof.
  destruct x as [w env]. unfold St.exec, flush.
  destruct (current_batch_ w); [repeat split|].
  destruct (running_ w) eqn:Hrun; cbn [negb orb]; [|repeat split; auto].
  destruct (send_batch (socket_fd_ w) (s :: l) env) as [ok env'].
  simpl. repeat split; auto.
Qed.

Lemma write_tick_frame (t : TickData) (x : World) :
  let y := St.exec (write_tick t) x in
  config_ (fst y) = config_ (fst x)
  /\ running_ (fst y) = running_ (fst x)
  /\ socket_fd_ (fst y) = socket_fd_ (fst x).
Proof.
  destruct x as [w env]. unfold St.exec, write_tick.
  destruct (running_ w) eqn:Hrun; cbn [negb]; [|repeat split; auto].
  match goal with |- context [if ?b then _ else _] => destruct b end.
  - destruct (flush_frame
                (with_batch w (push_back (current_batch_ w) (to_ilp_format t)),
                 env)) as (H1 & H2 & H3).
    unfold St.exec in *. simpl in *. rewrite H1, H2, H3. repeat split; auto.
  - simpl. repeat split; auto.
Qed.

(** One [write_tick] on a connected running writer adds its line, and
    nothing else, to the text on its way to the socket. *)
Lemma write_tick_wire (t : TickData) (x : World) :
  running_ (fst x) = true -> 0 <= socket_fd_ (fst x) ->
  wire_text (St.exec (write_tick t) x)
  = wire_text x ++ join_lines [to_ilp_format t].
Proof.
  intros Hrun Hfd. destruct x as [w env]. simpl in Hrun, Hfd.
  unfold St.exec, write_tick. rewrite Hrun. cbn [negb].
  set (w' := with_batch w (push_back (current_batch_ w) (to_ilp_format t))).
  assert (Hpushed : wire_text (w', env)
                    = wire_text (w, env) ++ join_lines [to_ilp_format t]).
  { unfold wire_text, w', push_back. cbn [fst current_batch_ with_batch].
    rewrite join_lines_app, <- append_assoc. reflexivity. }
  match goal with |- context [if ?b then _ else _] => destruct b end;
    [|exact Hpushed].
  rewrite <- Hpushed.
  assert (Hne : current_batch_ w' <> []).
  { unfold w', push_back. simpl. destruct (current_batch_ w); discriminate. }
  pose proof (flush_payloads w' env Hne Hrun Hfd) as Hpay.
  destruct (flush_proceeds w' env Hne Hrun) as [Hfst _].
  unfold St.exec in *. unfold wire_text. rewrite Hpay, Hfst.
  cbn [current_batch_ with_batch join_lines].
  rewrite concat_all_app. cbn [concat_all]. unfold payloads.
  rewrite !append_nil_r. reflexivity.
Qed.

Lemma exec_write_ticks_cons (t : TickData) (rest : list TickData) (x : World) :
  St.exec (write_ticks (t :: rest)) x
  = St.exec (write_ticks rest) (St.exec (write_tick t) x).
Proof.
  unfold St.exec. simpl. unfold St.bind.
  destruct (write_tick t x) as [u x']. reflexivity.
Qed.

Lemma write_ticks_frame (ticks : list TickData) :
  forall x : World,
    let y := St.exec (write_ticks ticks) x in
    config_ (fst y) = config_ (fst x)
    /\ running_ (fst y) = running_ (fst x)
    /\ socket_fd_ (fst y) = socket_fd_ (fst x).
Proof.
  induction ticks as [|t rest IH]; intros x; [repeat split|].
  cbv zeta. rewrite exec_write_ticks_cons.
  destruct (IH (St.exec (write_tick t) x)) as (H1 & H2 & H3).
  destruct (write_tick_frame t x) as (G1 & G2 & G3).
  rewrite H1, H2, H3. auto.
Qed.

Lemma write_ticks_wire (ticks : list TickData) :
  forall x : World,
    running_ (fst x) = true -> 0 <= socket_fd_ (fst x) ->
    wire_text (St.exec (write_ticks ticks) x)
    = wire_text x ++ join_lines (lines_of ticks).
Proof.
  induction ticks as [|t rest IH]; intros x Hrun Hfd.
  - simpl. now rewrite append_nil_r.
  - rewrite exec_write_ticks_cons.
    destruct (write_tick_frame t x) as (_ & G2 & G3).
    rewrite IH by (rewrite ?G2, ?G3; assumption).
    rewrite (write_tick_wire t x Hrun Hfd).
    change (lines_of (t :: rest)) with ([to_ilp_format t] ++ lines_of rest)%list.
    rewrite join_lines_app, append_assoc. reflexivity.
Qed.

(** Nothing has an effect on a writer that is not running. *)
Lemma not_running_inert (x : World) (ticks : list TickData) :
  running_ (fst x) = false ->
  St.exec (write_ticks ticks) x = x
  /\ St.exec flush x = x
  /\ St.exec stop x = x.
Proof.
  intros Hoff. destruct x as [w env]. simpl in Hoff. split; [|split].
  - induction ticks as [|t rest IH]; [reflexivity|].
    rewrite exec_write_ticks_cons.
    replace (St.exec (write_tick t) (w, env)) with (w, env); [exact IH|].
    unfold St.exec, write_tick. now rewrite Hoff.
  - unfold St.exec, flush. rewrite Hoff.
    destruct (current_batch_ w); reflexivity.
  - unfold St.exec, stop. now rewrite Hoff.
Qed.

(** What [stop] does to a running writer: one last flush, then the
    descriptor is given up and the flag cleared. *)
Lemma stop_running (x : World) :
  running_ (fst x) = true ->
  let f := St.exec flush x in
  St.exec stop x
  = ({| config_ := config_ (fst f); stats_ := stats_ (fst f);
        current_batch_ := current_batch_ (fst f);
        running_ := false;
        socket_fd_ := if socket_fd_ (fst f) >=? 0 then -1
                      else socket_fd_ (fst f) |},
     snd f).
Proof.
  intros Hrun. destruct x as [w env]. simpl in Hrun.
  unfold St.exec, stop. rewrite Hrun. cbn [negb].
  destruct (flush (w, env)) as [u [w' env']]. reflexivity.
Qed.

(** A flush on a connected running writer moves the pending lines to the
    socket: the text on its way is unchanged and nothing stays pending. *)
Lemma flush_wire (x : World) :
  running_ (fst x) = true -> 0 <= socket_fd_ (fst x) ->
  wire_text (St.exec flush x) = wire_text x
  /\ current_batch_ (fst (St.exec flush x)) = [].
Proof.
  intros Hrun Hfd. destruct x as [w env]. simpl in Hrun, Hfd.
  destruct (current_batch_ w) as [|l ls] eqn:Hb.
  - unfold St.exec, flush. rewrite Hb. simpl. split; [reflexivity|exact Hb].
  - assert (Hne : current_batch_ w <> []) by (rewrite Hb; discriminate).
    pose proof (flush_payloads w env Hne Hrun Hfd) as Hpay.
    destruct (flush_proceeds w env Hne Hrun) as [Hfst _].
    unfold wire_text. rewrite Hpay, Hfst.
    cbn [current_batch_ with_batch join_lines].
    rewrite concat_all_app. cbn [concat_all]. unfold payloads.
    rewrite !append_nil_r. split; reflexivity.
Qed.

(** The effect of one [write_tick] between two calls. *)
Lemma write_tick_effect (B : Z) (t : TickData) (x : World) :
  between_writes B x ->
  let y := St.exec (write_tick t) x in
  (pending x + 1 = B ->
   reports y = (reports x ++ [B])%list /\ pending y = 0
   /\ exists ok : bool, stats y = count_send ok B (stats x))
  /\ (pending x + 1 <> B ->
      reports y = reports x /\ pending y = pending x + 1
      /\ stats y = stats x).
Proof.
  intros Hinv. pose proof (write_tick_step B t x Hinv) as Hstep.
  cbv zeta in *. destruct Hinv as (Hrun & HB & Hlt). split.
  - intros Heq. rewrite (proj2 (Z.eqb_eq _ _) Heq) in Hstep.
    set (w' := with_batch (fst x)
                 (push_back (current_batch_ (fst x)) (to_ilp_format t))) in *.
    assert (Hne : current_batch_ w' <> []).
    { unfold w', push_back. simpl.
      destruct (current_batch_ (fst x)); discriminate. }
    destruct (flush_proceeds w' (snd x) Hne Hrun) as [Hfst Hrep].
    rewrite <- Hstep in Hfst, Hrep.
    assert (Hsize : vsize (current_batch_ w') = B).
    { unfold w'. simpl. rewrite vsize_push_back. exact Heq. }
    rewrite Hsize in Hfst, Hrep. repeat split.
    + exact Hrep.
    + unfold pending. rewrite Hfst. reflexivity.
    + exists (send_succeeds (w', snd x)). unfold stats. rewrite Hfst.
      reflexivity.
  - intros Hneq. rewrite (proj2 (Z.eqb_neq _ _) Hneq) in Hstep.
    rewrite Hstep. unfold reports, pending, stats. simpl.
    rewrite vsize_push_back. repeat split; reflexivity.
Qed.

Lemma repeat_snoc {A : Type} (a : A) (k : nat) :
  (repeat a k ++ [a])%list = repeat a (S k).
Proof.
  induction k as [|k IH]; simpl; [reflexivity|]. now rewrite IH.
Qed.

(** Batches fill one after the other, whatever the state between two
    calls the run starts from. *)
Lemma write_ticks_fill (B : Z) (ticks : list TickData) :
  1 <= B -> forall x : World, between_writes B x ->
  let y := St.exec (write_ticks ticks) x in
  let total := pending x + vsize ticks in
  pending y = total mod B
  /\ reports y = (reports x ++ repeat B (Z.to_nat (total / B)))%list.
Proof.
  intros HB1. induction ticks as [|t rest IH]; intros x Hinv.
  - cbv zeta. change (vsize (@nil TickData)) with 0. rewrite Z.add_0_r.
    destruct Hinv as (_ & _ & Hlt).
    pose proof (vsize_nonneg (current_batch_ (fst x))) as Hp.
    fold (pending x) in Hp.
    rewrite Z.mod_small, Z.div_small by lia. simpl.
    now rewrite app_nil_r.
  - cbv zeta. rewrite exec_write_ticks_cons.
    assert (Hlen : vsize (t :: rest) = 1 + vsize rest)
      by (unfold vsize; simpl List.length; lia).
    rewrite Hlen. pose proof (vsize_nonneg rest) as Hr.
    pose proof (vsize_nonneg (current_batch_ (fst x))) as Hp.
    fold (pending x) in Hp.
    pose proof (write_tick_between B t x HB1 Hinv) as Hinv'.
    destruct (IH _ Hinv') as [IHp IHr]. rewrite IHp, IHr.
    destruct (write_tick_effect B t x Hinv) as [Hfull Hpart].
    destruct (Z.eq_dec (pending x + 1) B) as [Heq|Hneq].
    + destruct (Hfull Heq) as (Hrep & Hpen & _). rewrite Hrep, Hpen.
      replace (pending x + (1 + vsize rest)) with (vsize rest + 1 * B) by lia.
      rewrite Z_mod_plus_full, Z_div_plus_full by lia.
      rewrite Z.add_0_l. split; [reflexivity|].
      rewrite <- app_assoc. f_equal.
      assert (Hq : 0 <= vsize rest / B) by (apply Z.div_pos; lia).
      rewrite Z2Nat.inj_add by lia. rewrite Nat.add_comm. reflexivity.
    + destruct (Hpart Hneq) as (Hrep & Hpen & _). rewrite Hrep, Hpen.
      replace (pending x + 1 + vsize rest)
        with (pending x + (1 + vsize rest)) by lia.
      split; reflexivity.
Qed.

Lemma write_ticks_accounted (B : Z) (ticks : list TickData) :
  1 <= B -> forall (k flushed : Z) (x : World),
  between_writes B x -> counters_within k x -> accounted B flushed x ->
  k + vsize ticks < 2 ^ 64 ->
  accounted B
    (flushed + (pending x + vsize ticks) / B - pending x / B)
    (St.exec (write_ticks ticks) x).
Proof.
  intros HB1. induction ticks as [|t rest IH];
    intros k flushed x Hinv Hc Hacc Hk.
  - change (vsize (@nil TickData)) with 0. rewrite Z.add_0_r.
    replace (flushed + pending x / B - pending x / B) with flushed by lia.
    exact Hacc.
  - rewrite exec_write_ticks_cons.
    assert (Hlen : vsize (t :: rest) = 1 + vsize rest)
      by (unfold vsize; simpl List.length; lia).
    rewrite Hlen in *. pose proof (vsize_nonneg rest) as Hr.
    pose proof (vsize_nonneg (current_batch_ (fst x))) as Hp.
    fold (pending x) in Hp.
    pose proof (write_tick_between B t x HB1 Hinv) as Hinv'.
    pose proof (write_tick_counters B k t x HB1 Hinv Hc ltac:(lia)) as Hc'.
    destruct (write_tick_effect B t x Hinv) as [Hfull Hpart].
    destruct Hinv as (Hrun & HBx & Hlt).
    destruct Hacc as (Hl & Hb0 & He0 & Hsum).
    destruct Hc as (Hl0 & Hlk & Hbk & Hek).
    assert (Hsmall : pending x / B = 0) by (apply Z.div_small; lia).
    destruct (Z.eq_dec (pending x + 1) B) as [Heq|Hneq].
    + destruct (Hfull Heq) as (_ & Hpen & ok & Hst).
      assert (Hacc' : accounted B (flushed + 1) (St.exec (write_tick t) x)).
      { unfold accounted. rewrite Hst. unfold count_send.
        destruct ok; simpl;
          rewrite ?wrap64_small by (unfold two64; lia); lia. }
      specialize (IH (k + 1) (flushed + 1) _ Hinv' Hc' Hacc' ltac:(lia)).
      rewrite Hpen in IH. rewrite Hsmall.
      replace (pending x + (1 + vsize rest)) with (vsize rest + 1 * B) by lia.
      rewrite Z_div_plus_full by lia.
      replace (flushed + 1 + (0 + vsize rest) / B - 0 / B)
        with (flushed + (vsize rest / B + 1) - 0) in IH
        by (rewrite Z.add_0_l, Zdiv_0_l; lia).
      exact IH.
    + destruct (Hpart Hneq) as (_ & Hpen & Hst).
      assert (Hacc' : accounted B flushed (St.exec (write_tick t) x)).
      { unfold accounted. rewrite Hst. repeat split; assumption. }
      specialize (IH (k + 1) flushed _ Hinv' Hc' Hacc' ltac:(lia)).
      rewrite Hpen in IH.
      assert (Hsmall' : (pending x + 1) / B = 0) by (apply Z.div_small; lia).
      rewrite Hsmall' in IH. rewrite Hsmall.
      replace (pending x + (1 + vsize rest))
        with (pending x + 1 + vsize rest) by lia.
      replace (flushed + (pending x + 1 + vsize rest) / B - 0)
        with (flushed + (pending x + 1 + vsize rest) / B - 0) by lia.
      exact IH.
Qed.

(** X1: every line written to a connected running writer is handed to
    [send] or kept pending, once and in the order of the calls, whatever
    the batch size and whatever [send] answers. *)
Theorem written_lines_reach_send_in_order (cfg : ILPConfig) (fd : Z)
    (env0 : Env) (ticks : list TickData) :
  0 <= fd ->
  wire_text (St.exec (write_ticks ticks) (started cfg fd, env0))
  = concat_all (sent_payloads env0) ++ join_lines (lines_of ticks).
Proof.
  intros Hfd.
  rewrite (write_ticks_wire ticks (started cfg fd, env0) eq_refl Hfd).
  unfold wire_text, payloads. simpl. now rewrite append_nil_r.
Qed.

Lemma written_lines_reach_send_in_order_witness :
  wire_text
    (St.exec (write_ticks [reliance_tick; late_tick; reliance_tick])
       (started small_config 3, env_failing))
  = concat_all (sent_payloads env_failing)
    ++ join_lines (lines_of [reliance_tick; late_tick; reliance_tick]).
Proof.
  apply (written_lines_reach_send_in_order small_config 3 env_failing
           [reliance_tick; late_tick; reliance_tick]).
  lia.
Defined.

(** X2: writing the ticks, then [flush] and [stop] as the demo does,
    hands every line to [send] in order, leaves nothing pending, clears
    the running flag and resets the descriptor to -1. *)
Theorem stop_drains_the_batch (cfg : ILPConfig) (fd : Z) (env0 : Env)
    (ticks : list TickData) :
  0 <= fd ->
  let y := St.exec (write_all_and_stop ticks) (started cfg fd, env0) in
  concat_all (payloads y)
  = concat_all (sent_payloads env0) ++ join_lines (lines_of ticks)
  /\ current_batch_ (fst y) = []
  /\ running_ (fst y) = false
  /\ socket_fd_ (fst y) = -1.
Proof.
  intros Hfd y.
  set (x1 := St.exec (write_ticks ticks) (started cfg fd, env0)).
  set (x2 := St.exec flush x1).
  assert (Hy : y = St.exec stop x2).
  { unfold y, x2, x1, write_all_and_stop, St.exec, St.bind.
    destruct (write_ticks ticks (started cfg fd, env0)) as [u1 a].
    simpl. destruct (flush a) as [u2 b]. reflexivity. }
  destruct (write_ticks_frame ticks (started cfg fd, env0)) as (_ & R1 & F1).
  fold x1 in R1, F1. simpl in R1, F1.
  assert (Hfd1 : 0 <= socket_fd_ (fst x1)) by (rewrite F1; exact Hfd).
  destruct (flush_wire x1 R1 Hfd1) as [W2 B2]. fold x2 in W2, B2.
  destruct (flush_frame x1) as (_ & R2 & F2). fold x2 in R2, F2.
  rewrite R1 in R2. rewrite F1 in F2.
  assert (Hfd2 : 0 <= socket_fd_ (fst x2)) by (rewrite F2; exact Hfd).
  set (x3 := St.exec flush x2).
  destruct (flush_wire x2 R2 Hfd2) as [W3 B3]. fold x3 in W3, B3.
  destruct (flush_frame x2) as (_ & _ & F3). fold x3 in F3. rewrite F2 in F3.
  pose proof (write_ticks_wire ticks (started cfg fd, env0) eq_refl Hfd) as W1.
  fold x1 in W1. rewrite <- W2, <- W3 in W1. unfold wire_text at 1 in W1.
  rewrite B3 in W1. cbn [join_lines] in W1. rewrite append_nil_r in W1.
  rewrite Hy, (stop_running x2 R2). cbv zeta. fold x3.
  unfold payloads in *. cbn [fst snd current_batch_ running_ socket_fd_].
  rewrite F3, B3, (proj2 (Z.geb_le _ _) Hfd), W1.
  unfold wire_text, payloads. simpl. rewrite append_nil_r.
  repeat split.
Qed.

Lemma stop_drains_the_batch_witness :
  let y := St.exec (write_all_and_stop [reliance_tick; late_tick; reliance_tick])
             (started small_config 3, env_sending) in
  concat_all (payloads y)
  = concat_all (sent_payloads env_sending)
    ++ join_lines (lines_of [reliance_tick; late_tick; reliance_tick])
  /\ current_batch_ (fst y) = []
  /\ running_ (fst y) = false
  /\ socket_fd_ (fst y) = -1.
Proof.
  apply (stop_drains_the_batch small_config 3 env_sending
           [reliance_tick; late_tick; reliance_tick]).
  lia.
Defined.

(** X3: once [stop] has returned, further [write_tick], [flush] and
    [stop] calls change neither the writer nor what was sent or
    reported. *)
Theorem stopped_writer_is_inert (x : World) (ticks : list TickData) :
  let y := St.exec stop x in
  St.exec (write_ticks ticks) y = y
  /\ St.exec flush y = y
  /\ St.exec stop y = y
  /\ St.exec (write_all_and_stop ticks) y = y.
Proof.
  intros y.
  assert (Hoff : running_ (fst y) = false).
  { unfold y. destruct (running_ (fst x)) eqn:Hrun.
    - rewrite (stop_running x Hrun). reflexivity.
    - destruct (not_running_inert x [] Hrun) as (_ & _ & ->). exact Hrun. }
  destruct (not_running_inert y ticks Hoff) as (H1 & H2 & H3).
  repeat split; try assumption.
  unfold write_all_and_stop, St.exec, St.bind in *.
  destruct (write_ticks ticks y) as [u1 a]. simpl in H1. subst a.
  destruct (flush y) as [u2 b]. simpl in H2. subst b. exact H3.
Qed.

(** X4: after [n] calls of [write_tick] on a started writer of batch size
    [B >= 1], [n mod B] lines are pending and [n / B] batches, each of
    [B] lines, have been flushed. *)
Theorem batches_fill_in_turn (cfg : ILPConfig) (fd : Z) (env0 : Env)
    (ticks : list TickData) :
  1 <= batch_size cfg ->
  let B := batch_size cfg in
  let n := vsize ticks in
  let y := St.exec (write_ticks ticks) (started cfg fd, env0) in
  pending y = n mod B
  /\ reports y
     = (reported_batches env0 ++ repeat B (Z.to_nat (n / B)))%list.
Proof.
  intros HB1 B n y.
  destruct (write_ticks_fill B ticks HB1 (started cfg fd, env0)
              (started_between cfg fd env0 HB1)) as [Hp Hr].
  fold y in Hp, Hr. change (pending (started cfg fd, env0)) with 0 in Hp, Hr.
  rewrite Z.add_0_l in Hp, Hr. split; assumption.
Qed.

Lemma batches_fill_in_turn_witness :
  let y := St.exec (write_ticks [reliance_tick; late_tick; reliance_tick])
             (started small_config 3, env_failing) in
  pending y = 3 mod 2
  /\ reports y = ([] ++ repeat 2 (Z.to_nat (3 / 2)))%list.
Proof.
  apply (batches_fill_in_turn small_config 3 env_failing
           [reliance_tick; late_tick; reliance_tick]).
  simpl. lia.
Defined.

(** X5: in a run of [n < 2^64] calls of [write_tick] on a started writer
    of batch size [B >= 1], every flushed batch is counted once, as sent
    or as an error: [batches_sent + errors = n / B],
    [lines_sent = B * batches_sent], so that exactly [B * errors] lines
    were dropped. *)
Theorem every_batch_is_counted (cfg : ILPConfig) (fd : Z) (env0 : Env)
    (ticks : list TickData) :
  1 <= batch_size cfg -> vsize ticks < 2 ^ 64 ->
  let B := batch_size cfg in
  let n := vsize ticks in
  let y := St.exec (write_ticks ticks) (started cfg fd, env0) in
  batches_sent (stats y) + errors (stats y) = n / B
  /\ lines_sent (stats y) = B * batches_sent (stats y)
  /\ lines_sent (stats y) + B * errors (stats y) + pending y = n.
Proof.
  intros HB1 Hn B n y.
  pose proof (started_between cfg fd env0 HB1) as Hinv.
  assert (Hc : counters_within 0 (started cfg fd, env0)).
  { unfold counters_within, stats, pending, vsize. simpl. lia. }
  assert (Ha : accounted B 0 (started cfg fd, env0)).
  { unfold accounted, stats. simpl. lia. }
  pose proof (write_ticks_accounted B ticks HB1 0 0 _ Hinv Hc Ha
                ltac:(rewrite Z.add_0_l; exact Hn)) as Hacc.
  destruct (write_ticks_fill B ticks HB1 _ Hinv) as [Hp _].
  fold y in Hacc, Hp.
  change (pending (started cfg fd, env0)) with 0 in Hacc, Hp.
  rewrite Z.add_0_l in Hp. rewrite !Z.add_0_l, Zdiv_0_l, Z.sub_0_r in Hacc.
  fold n in Hacc, Hp. destruct Hacc as (Hl & Hb0 & He0 & Hsum).
  split; [exact Hsum|]. split; [exact Hl|].
  rewrite Hl, Hp, <- Z.mul_add_distr_l, Hsum.
  symmetry. apply Z.div_mod. unfold B. lia.
Qed.

Lemma every_batch_is_counted_witness :
  let y := St.exec (write_ticks [reliance_tick; late_tick; reliance_tick])
             (started small_config 3, env_failing) in
  batches_sent (stats y) + errors (stats y) = 3 / 2
  /\ lines_sent (stats y) = 2 * batches_sent (stats y)
  /\ lines_sent (stats y) + 2 * errors (stats y) + pending y = 3.
Proof.
  apply (every_batch_is_counted small_config 3 env_failing
           [reliance_tick; late_tick; reliance_tick]).
  - simpl. lia.
  - reflexivity.
Defined.

(** X6: [start] on a newly constructed writer either succeeds, and then
    leaves exactly the writer the runs above start from, with the
    descriptor [socket] returned, or fails, and then the writer is not
    running and every later [write_tick] is ignored; on a running writer
    [start] is refused and changes nothing. *)
Theorem start_connects_or_stays_off (cfg : ILPConfig) (c : Connect)
    (w : ILPWriter) (env : Env) (ticks : list TickData) :
  let r := start c (constructed cfg) in
  (fst r = true ->
   snd r = started cfg (socket_answer c)
   /\ 0 <= socket_answer c /\ 0 <= connect_answer c)
  /\ (fst r = false ->
      running_ (snd r) = false
      /\ St.exec (write_ticks ticks) (snd r, env) = (snd r, env))
  /\ (running_ w = true -> start c w = (false, w)).
Proof.
  cbv zeta. split; [|split].
  - unfold start, constructed, started. cbn.
    destruct (Z.ltb_spec (socket_answer c) 0); [discriminate|].
    match goal with |- context [if ?b then _ else _] => destruct b end;
      [discriminate|].
    destruct (Z.ltb_spec (connect_answer c) 0); [discriminate|].
    intros _. repeat split; assumption.
  - intros Hfail.
    assert (Hoff : running_ (snd (start c (constructed cfg))) = false).
    { revert Hfail. unfold start, constructed. cbn.
      repeat match goal with
             | |- context [if ?b then _ else _] => destruct b
             end; cbn; intros; congruence. }
    split; [exact Hoff|].
    apply (not_running_inert (snd (start c (constructed cfg)), env) ticks Hoff).
  - intros Hrun. unfold start. now rewrite Hrun.
Qed.

End WriterRunFacts.

(* ================================================================== *)
(** * Properties: runs of the fetch loop *)

Module ClientRunFacts.

Import Spec Cpp Client Chrono CppFacts MetricsFacts RateLimiterFacts.

(** One iteration of the symbol loop, spelled out. *)
Lemma fetch_step_cases (r : Request) (st : ClientState) :
  let allowed :=
    in_window (check_time r) (request_times_ st) <? MAX_REQUESTS_PER_DAY in
  St.eval (fetch_step r) st = allowed
  /\ St.exec (fetch_step r) st
     = if allowed
       then {| request_times_ :=
                 filter (fun t => negb (t <=? record_time r - hours24))
                   (request_times_ st ++ [record_time r]);
               metrics_ := update_metrics (empty (response r)) (latency_us r)
                             (metrics_ st) |}
       else st.
Proof.
  pose proof (can_make_request_window (check_time r) st) as Hw.
  pose proof (can_make_request_pure (check_time r) st) as Hp.
  cbv zeta. rewrite <- Hw. clear Hw.
  unfold St.eval, St.exec, fetch_step, St.bind in *.
  destruct (can_make_request (check_time r) st) as [allowed st0].
  simpl in Hp. subst st0. cbn [fst].
  destruct allowed; split; reflexivity.
Qed.

Lemma exec_fetch_cycle_cons (r : Request) (rs : list Request)
    (st : ClientState) :
  St.exec (fetch_cycle (r :: rs)) st
  = if St.eval (fetch_step r) st
    then St.exec (fetch_cycle rs) (St.exec (fetch_step r) st)
    else St.exec (fetch_step r) st.
Proof.
  unfold St.exec, St.eval. simpl. unfold St.bind.
  destruct (fetch_step r st) as [b st']. simpl. destruct b; reflexivity.
Qed.

Lemma in_window_all (now : Z) (times : list Z) :
  (forall t, In t times -> now - hours24 < t) ->
  in_window now times = Z.of_nat (List.length times).
Proof.
  intros H. unfold in_window. rewrite filter_all; [reflexivity|].
  intros x Hx. apply Z.ltb_lt. now apply H.
Qed.

(** A later window holds no more of the stored timestamps. *)
Lemma in_window_later (a b : Z) (times : list Z) :
  a <= b -> in_window b times <= in_window a times.
Proof.
  intros Hab. unfold in_window. apply inj_le.
  induction times as [|t rest IH]; simpl; [lia|].
  destruct (Z.ltb_spec (b - hours24) t); destruct (Z.ltb_spec (a - hours24) t);
    simpl; lia.
Qed.

Lemma record_filter_window (now : Z) (times : list Z) :
  Z.of_nat (List.length
              (filter (fun t => negb (t <=? now - hours24)) (times ++ [now])))
  = in_window now times + 1.
Proof.
  unfold in_window. rewrite filter_app, length_app. simpl.
  pose proof hours24_pos as Hh.
  destruct (Z.leb_spec now (now - hours24)); [lia|]. simpl.
  rewrite Nat2Z.inj_add. f_equal. f_equal. f_equal.
  apply filter_ext. intros t.
  destruct (Z.leb_spec t (now - hours24)); destruct (Z.ltb_spec (now - hours24) t);
    simpl; try reflexivity; lia.
Qed.

(** The loop keeps the number of stored timestamps within the quota when
    the clock does not run backwards between the check and the record. *)
Lemma fetch_cycle_bounded (rs : list Request) :
  (forall r, In r rs -> check_time r <= record_time r) ->
  forall st : ClientState,
    Z.of_nat (List.length (request_times_ st)) <= MAX_REQUESTS_PER_DAY ->
    Z.of_nat (List.length (request_times_ (St.exec (fetch_cycle rs) st)))
    <= MAX_REQUESTS_PER_DAY.
Proof.
  induction rs as [|r rs IH]; intros Hmono st Hst; [exact Hst|].
  rewrite exec_fetch_cycle_cons.
  destruct (fetch_step_cases r st) as [Hev Hex]. cbv zeta in Hev, Hex.
  rewrite Hev, Hex.
  destruct (Z.ltb_spec (in_window (check_time r) (request_times_ st))
              MAX_REQUESTS_PER_DAY) as [Hlt|Hge]; [|exact Hst].
  apply IH; [intros r' Hr'; apply Hmono; now right|].
  cbn [request_times_]. rewrite record_filter_window.
  pose proof (in_window_later (check_time r) (record_time r)
                (request_times_ st) (Hmono r (or_introl eq_refl))).
  lia.
Qed.

(** Within one 24-hour span every request made is stored and counted,
    until the quota is reached. *)
Lemma fetch_cycle_in_span (lo : Z) (rs : list Request) :
  cycle_in_span lo rs ->
  forall st : ClientState,
    (forall t, In t (request_times_ st) -> in_span lo t) ->
    let q := Z.of_nat (List.length (request_times_ st)) in
    q <= MAX_REQUESTS_PER_DAY ->
    0 <= request_count (metrics_ st) ->
    request_count (metrics_ st) + (MAX_REQUESTS_PER_DAY - q) < 2 ^ 64 ->
    let st' := St.exec (fetch_cycle rs) st in
    let q' := Z.min (q + Z.of_nat (List.length rs)) MAX_REQUESTS_PER_DAY in
    Z.of_nat (List.length (request_times_ st')) = q'
    /\ request_count (metrics_ st') = request_count (metrics_ st) + (q' - q).
Proof.
  induction rs as [|r rs IH]; intros Hspan st Hst q Hq Hc0 Hc st' q'.
  - unfold st', q'. simpl. rewrite Z.add_0_r, Z.min_l by exact Hq.
    unfold St.exec, St.ret. simpl. fold q. split; lia.
  - unfold st'. rewrite exec_fetch_cycle_cons.
    destruct (fetch_step_cases r st) as [Hev Hex]. cbv zeta in Hev, Hex.
    rewrite Hev, Hex.
    destruct (Hspan r (or_introl eq_refl)) as [Hchk Hrec].
    unfold in_span in *.
    rewrite (in_window_all (check_time r) (request_times_ st))
      by (intros t Ht; specialize (Hst t Ht); lia).
    fold q. unfold q'. simpl List.length. rewrite Nat2Z.inj_succ.
    destruct (Z.ltb_spec q MAX_REQUESTS_PER_DAY) as [Hlt|Hge].
    + set (st1 := {| request_times_ :=
                       filter (fun t => negb (t <=? record_time r - hours24))
                         (request_times_ st ++ [record_time r]);
                     metrics_ := update_metrics (empty (response r))
                                   (latency_us r) (metrics_ st) |}).
      assert (Hkeep : request_times_ st1
                      = (request_times_ st ++ [record_time r])%list).
      { unfold st1. cbn [request_times_]. apply filter_all.
        intros x Hx. apply in_app_or in Hx.
        destruct (Z.leb_spec x (record_time r - hours24)); [|reflexivity].
        destruct Hx as [Hx|[Hx|[]]]; [specialize (Hst x Hx)|subst x]; lia. }
      assert (Hcount : request_count (metrics_ st1)
                       = request_count (metrics_ st) + 1).
      { unfold st1. cbn [metrics_]. unfold update_metrics.
        unfold MAX_REQUESTS_PER_DAY in Hc, Hlt.
        destruct (empty (response r)); cbn [request_count];
          apply wrap64_small; unfold two64; lia. }
      assert (Hlen1 : Z.of_nat (List.length (request_times_ st1)) = q + 1).
      { rewrite Hkeep, length_app. simpl. unfold q. lia. }
      destruct (IH (fun r' Hr' => Hspan r' (or_intror Hr')) st1) as [H1 H2].
      * intros t Ht. rewrite Hkeep in Ht. apply in_app_or in Ht.
        destruct Ht as [Ht|[Ht|[]]]; [now apply Hst|subst t; exact Hrec].
      * rewrite Hlen1. lia.
      * rewrite Hcount. lia.
      * rewrite Hcount, Hlen1. unfold MAX_REQUESTS_PER_DAY in *. lia.
      * rewrite Hlen1 in H1, H2. rewrite Hcount in H2.
        replace (q + Z.succ (Z.of_nat (List.length rs)))
          with (q + 1 + Z.of_nat (List.length rs)) by lia.
        split; [exact H1|lia].
    + assert (q = MAX_REQUESTS_PER_DAY) by lia.
      rewrite Z.min_r by lia. fold q. split; lia.
Qed.

Lemma thirty_requests_in_span : cycle_in_span burst_start thirty_requests.
Proof.
  intros r Hr. unfold thirty_requests in Hr. apply in_map_iff in Hr.
  destruct Hr as (k & <- & Hk). apply in_seq in Hk.
  unfold in_span, hours24. cbn [check_time record_time]. lia.
Qed.

(** X7: in a cycle whose clock readings all lie within one 24-hour span,
    started with no stored timestamp, the loop makes the first 25
    requests and skips all later ones: the number of requests made and
    of timestamps stored is the smaller of the number of symbols and
    25. *)
Theorem quota_caps_requests_in_a_day (lo : Z) (rs : list Request) :
  cycle_in_span lo rs ->
  let st := St.exec (fetch_cycle rs) initial_client in
  let made := Z.min (Z.of_nat (List.length rs)) MAX_REQUESTS_PER_DAY in
  request_count (metrics_ st) = made
  /\ Z.of_nat (List.length (request_times_ st)) = made.
Proof.
  intros Hspan st made.
  assert (Hnone : forall t, In t (request_times_ initial_client) ->
                            in_span lo t) by (intros t []).
  destruct (fetch_cycle_in_span lo rs Hspan initial_client Hnone) as [H1 H2];
    try (simpl; unfold MAX_REQUESTS_PER_DAY; lia).
  simpl in H1, H2. fold st in H1, H2. rewrite Z.sub_0_r in H2.
  split; [exact H2|exact H1].
Qed.

Lemma quota_caps_requests_in_a_day_witness :
  let st := St.exec (fetch_cycle thirty_requests) initial_client in
  let made := Z.min (Z.of_nat (List.length thirty_requests))
                MAX_REQUESTS_PER_DAY in
  request_count (metrics_ st) = made
  /\ Z.of_nat (List.length (request_times_ st)) = made.
Proof.
  apply (quota_caps_requests_in_a_day burst_start thirty_requests).
  exact thirty_requests_in_span.
Defined.

(** X8: whenever the clock does not run backwards between the check and
    the record of a request, a cycle of the loop that starts with at most
    25 stored timestamps ends with at most 25. *)
Theorem stored_timestamps_stay_within_quota (rs : list Request)
    (st : ClientState) :
  (forall r, In r rs -> check_time r <= record_time r) ->
  Z.of_nat (List.length (request_times_ st)) <= MAX_REQUESTS_PER_DAY ->
  Z.of_nat (List.length (request_times_ (St.exec (fetch_cycle rs) st)))
  <= MAX_REQUESTS_PER_DAY.
Proof.
  intros Hmono Hst. now apply fetch_cycle_bounded.
Qed.

Lemma stored_timestamps_stay_within_quota_witness :
  Z.of_nat (List.length
              (request_times_
                 (St.exec (fetch_cycle thirty_requests) initial_client)))
  <= MAX_REQUESTS_PER_DAY.
Proof.
  apply (stored_timestamps_stay_within_quota thirty_requests initial_client).
  - intros r Hr. unfold thirty_requests in Hr. apply in_map_iff in Hr.
    destruct Hr as (k & <- & _). cbn [check_time record_time]. lia.
  - simpl. unfold MAX_REQUESTS_PER_DAY. lia.
Defined.

(** The metrics after the samples, from given metrics. *)
Lemma metrics_after_from (samples : list (bool * Z)) :
  metrics_after samples
  = fold_left (fun m s => update_metrics (fst s) (snd s) m) samples
      initial_metrics.
Proof. reflexivity. Qed.

Lemma fold_counts (samples : list (bool * Z)) :
  forall m : LatencyMetrics,
    0 <= error_count m <= request_count m ->
    request_count m + Z.of_nat (List.length samples) < 2 ^ 64 ->
    let m' := fold_left (fun m s => update_metrics (fst s) (snd s) m)
                samples m in
    request_count m' = request_count m + Z.of_nat (List.length samples)
    /\ error_count m' = error_count m + failures samples.
Proof.
  induction samples as [|[e l] rest IH]; intros m Hm Hfit.
  - unfold failures. simpl. lia.
  - cbv zeta. simpl fold_left. simpl List.length in Hfit.
    rewrite Nat2Z.inj_succ in Hfit.
    set (m1 := update_metrics e l m).
    assert (Hrc : request_count m1 = request_count m + 1).
    { unfold m1, update_metrics. destruct e; cbn [request_count];
        apply wrap64_small; unfold two64; lia. }
    assert (Hec : error_count m1
                  = error_count m + (if e then 1 else 0)).
    { unfold m1, update_metrics. destruct e; cbn [error_count]; [|lia].
      apply wrap64_small; unfold two64; lia. }
    destruct (IH m1) as [H1 H2].
    + rewrite Hrc, Hec. destruct e; lia.
    + rewrite Hrc. lia.
    + rewrite H1, H2, Hrc, Hec. simpl List.length. rewrite Nat2Z.inj_succ.
      unfold failures. simpl filter. destruct e; simpl List.length;
        rewrite ?Nat2Z.inj_succ; split; lia.
Qed.

Lemma fold_bounds (samples : list (bool * Z)) :
  forall m : LatencyMetrics,
    let m' := fold_left (fun m s => update_metrics (fst s) (snd s) m)
                samples m in
    min_api_latency m' <= min_api_latency m
    /\ max_api_latency m <= max_api_latency m'
    /\ (forall l, In (false, l) samples ->
          min_api_latency m' <= l <= max_api_latency m').
Proof.
  induction samples as [|[e l] rest IH]; intros m.
  - simpl. split; [lia|]. split; [lia|]. intros l [].
  - cbv zeta. simpl fold_left.
    destruct (IH (update_metrics e l m)) as (Hmin & Hmax & Hall).
    assert (Hstep : min_api_latency (update_metrics e l m) <= min_api_latency m
                    /\ max_api_latency m <= max_api_latency (update_metrics e l m)
                    /\ (e = false ->
                        min_api_latency (update_metrics e l m) <= l
                        <= max_api_latency (update_metrics e l m))).
    { unfold update_metrics. destruct e; cbn [min_api_latency max_api_latency].
      - repeat split; try lia; discriminate.
      - destruct (Z.ltb_spec l (min_api_latency m));
          destruct (Z.gtb_spec l (max_api_latency m)); repeat split; lia. }
    destruct Hstep as (Smin & Smax & Sl).
    split; [lia|]. split; [lia|].
    intros l' [Heq|Hin].
    + injection Heq as -> ->. specialize (Sl eq_refl). lia.
    + now apply Hall.
Qed.

Lemma fold_failures_only (samples : list (bool * Z)) :
  forallb fst samples = true ->
  forall m : LatencyMetrics,
    let m' := fold_left (fun m s => update_metrics (fst s) (snd s) m)
                samples m in
    avg_api_latency m' = avg_api_latency m
    /\ max_api_latency m' = max_api_latency m
    /\ min_api_latency m' = min_api_latency m.
Proof.
  induction samples as [|[e l] rest IH]; intros Hall m; [repeat split|].
  simpl in Hall. apply andb_prop in Hall. destruct Hall as [He Hrest].
  simpl in He. subst e. cbn [fold_left fst snd].
  destruct (IH Hrest (update_metrics true l m)) as (H1 & H2 & H3).
  cbv zeta in H1, H2, H3. rewrite H1, H2, H3. repeat split.
Qed.

(** The invariant together with the bounds that keep the arithmetic of
    the average from wrapping. *)
Lemma fold_min_avg_max (samples : list (bool * Z)) :
  forall (m : LatencyMetrics) (k : Z),
    min_avg_max m -> 0 <= min_api_latency m -> max_api_latency m < 2 ^ 32 ->
    request_count m = k -> 0 <= k ->
    k + Z.of_nat (List.length samples) < 2 ^ 31 ->
    (forall e l, In (e, l) samples -> 0 <= l < 2 ^ 32) ->
    min_avg_max
      (fold_left (fun m s => update_metrics (fst s) (snd s) m) samples m).
Proof.
  induction samples as [|[e l] rest IH];
    intros m k Hinv Hmin Hmax Hk Hk0 Hlen Hlat; [exact Hinv|].
  simpl fold_left. simpl List.length in Hlen. rewrite Nat2Z.inj_succ in Hlen.
  assert (Hl : 0 <= l < 2 ^ 32) by (apply (Hlat e); now left).
  assert (Hr : in_range l m).
  { unfold in_range. unfold min_avg_max in Hinv. rewrite Hk.
    repeat split; try lia. nia. }
  apply (IH (update_metrics e l m) (k + 1)).
  - now apply update_metrics_preserves.
  - unfold update_metrics. destruct e; cbn [min_api_latency]; [exact Hmin|].
    destruct (Z.ltb_spec l (min_api_latency m)); lia.
  - unfold update_metrics. destruct e; cbn [max_api_latency]; [exact Hmax|].
    destruct (Z.gtb_spec l (max_api_latency m)); lia.
  - unfold update_metrics. destruct e; cbn [request_count]; rewrite Hk;
      apply wrap64_small; unfold two64; lia.
  - lia.
  - lia.
  - intros e' l' Hin. apply (Hlat e'). now right.
Qed.

(** X9: after any sequence of fewer than 2^64 requests, [request_count]
    is the number of requests and [error_count] the number of those whose
    response was empty. *)
Theorem requests_and_errors_are_counted (samples : list (bool * Z)) :
  Z.of_nat (List.length samples) < 2 ^ 64 ->
  request_count (metrics_after samples) = Z.of_nat (List.length samples)
  /\ error_count (metrics_after samples) = failures samples.
Proof.
  intros Hlen. rewrite metrics_after_from.
  destruct (fold_counts samples initial_metrics) as [H1 H2];
    try (simpl; lia).
  cbv zeta in H1, H2. rewrite H1, H2. simpl. split; lia.
Qed.

Lemma requests_and_errors_are_counted_witness :
  request_count (metrics_after session_samples)
  = Z.of_nat (List.length session_samples)
  /\ error_count (metrics_after session_samples) = failures session_samples.
Proof.
  apply (requests_and_errors_are_counted session_samples). reflexivity.
Defined.

(** X10: the reported minimum and maximum bracket the latency of every
    answered request, whatever failures lie in between. *)
Theorem extremes_bracket_every_answer (samples : list (bool * Z)) (l : Z) :
  In (false, l) samples ->
  min_api_latency (metrics_after samples) <= l
  <= max_api_latency (metrics_after samples).
Proof.
  intros Hin. rewrite metrics_after_from.
  destruct (fold_bounds samples initial_metrics) as (_ & _ & Hall).
  now apply Hall.
Qed.

Lemma extremes_bracket_every_answer_witness :
  min_api_latency (metrics_after session_samples) <= 80
  <= max_api_latency (metrics_after session_samples).
Proof.
  apply (extremes_bracket_every_answer session_samples 80).
  right. right. left. reflexivity.
Defined.

(** X11: as long as no request was answered, the three latencies keep
    their initial values: average 0, maximum 0 and the minimum at the
    largest [microseconds] value, 9223372036854775807. *)
Theorem minimum_stays_at_sentinel_without_answer
    (samples : list (bool * Z)) :
  forallb fst samples = true ->
  avg_api_latency (metrics_after samples) = 0
  /\ max_api_latency (metrics_after samples) = 0
  /\ min_api_latency (metrics_after samples) = 9223372036854775807.
Proof.
  intros Hall. rewrite metrics_after_from.
  destruct (fold_failures_only samples Hall initial_metrics) as (H1 & H2 & H3).
  cbv zeta in H1, H2, H3. rewrite H1, H2, H3. repeat split.
Qed.

Lemma minimum_stays_at_sentinel_without_answer_witness :
  avg_api_latency (metrics_after [(true, 30000000); (true, 12)]) = 0
  /\ max_api_latency (metrics_after [(true, 30000000); (true, 12)]) = 0
  /\ min_api_latency (metrics_after [(true, 30000000); (true, 12)])
     = 9223372036854775807.
Proof.
  apply (minimum_stays_at_sentinel_without_answer
           [(true, 30000000); (true, 12)]).
  reflexivity.
Defined.

(** X12: when the first request is answered, then after any further
    requests, answered or failed, minimum <= average <= maximum holds
    (latencies below 2^32 us, fewer than 2^31 requests). *)
Theorem average_between_extremes_after_first_answer (l0 : Z)
    (rest : list (bool * Z)) :
  0 <= l0 < 2 ^ 32 ->
  (forall e l, In (e, l) rest -> 0 <= l < 2 ^ 32) ->
  1 + Z.of_nat (List.length rest) < 2 ^ 31 ->
  min_avg_max (metrics_after ((false, l0) :: rest)).
Proof.
  intros Hl0 Hrest Hlen. rewrite metrics_after_from. cbn [fold_left fst snd].
  assert (H63 : 0 <= l0 < 2 ^ 63) by lia.
  pose proof (first_sample_establishes l0 H63) as Hinv.
  apply (fold_min_avg_max rest _ 1); try assumption; try lia.
  - unfold update_metrics, initial_metrics, int64_max.
    cbn [min_api_latency error_count negb]. destruct (l0 <? 2 ^ 63 - 1) eqn:E;
      [lia | apply Z.ltb_ge in E; lia].
  - unfold update_metrics, initial_metrics.
    cbn [max_api_latency error_count negb]. destruct (l0 >? 0) eqn:E; lia.
  - unfold update_metrics, initial_metrics.
    cbn [request_count error_count negb]. reflexivity.
Qed.

Lemma average_between_extremes_after_first_answer_witness :
  min_avg_max (metrics_after session_samples).
Proof.
  apply (average_between_extremes_after_first_answer 120
           [(true, 30000000); (false, 80); (false, 450)]).
  - lia.
  - intros e l Hin. simpl in Hin.
    repeat (destruct Hin as [Hin|Hin]; [injection Hin as <- <-; lia|]).
    contradiction.
  - simpl. lia.
Defined.

End ClientRunFacts.

(* ================================================================== *)
(** * Properties: what a parse does to the vector and to the clock *)

Module ParserRunFacts.

Import Spec Cpp Tick Extractor Chrono Parser CppFacts StringFacts ParserFacts.

Section WithNumericConversions.

Variable stod : string -> option Double.double.
Variable stoull : string -> option Z.

(** [synthesize_ticks] appends the expected ticks and reads the clock once
    for the timestamp and once in the constructor of each tick. *)
Lemma synthesize_ticks_run (symbol : string) (o h l c : Double.double)
    (volume : Z) (ticks : list TickData) (clk : Clock) :
  exists r1 r2 r3 r4,
    let new := expected_ticks (fst (split_symbol symbol))
                 (snd (split_symbol symbol)) o h l c volume
                 (reading clk (reads clk)) r1 r2 r3 r4 in
    synthesize_ticks symbol o h l c volume ticks clk
    = ((ticks ++ new)%list,
       {| reading := reading clk;
          reads := 1 + List.length new + reads clk |}).
Proof.
  unfold synthesize_ticks, expected_ticks.
  destruct (split_symbol symbol) as [sym exch]. simpl fst. simpl snd.
  unfold St.bind, stamped_tick, now, St.ret, push_back. simpl.
  destruct (Double.neb h o); destruct (Double.neb l o && Double.neb l h)%bool;
    simpl.
  - do 4 eexists. repeat rewrite <- app_assoc. simpl. reflexivity.
  - eexists. eexists. exists 0. eexists.
    repeat rewrite <- app_assoc. simpl. reflexivity.
  - eexists. exists 0. eexists. eexists.
    repeat rewrite <- app_assoc. simpl. reflexivity.
  - eexists. exists 0, 0. eexists.
    repeat rewrite <- app_assoc. simpl. reflexivity.
Qed.

(** A call that returns [true]: the fields it converted, the ticks it
    appended and the clock it leaves. *)
Lemma parse_success_run (json symbol : string) (ticks out : list TickData)
    (clk clk' : Clock) :
  parse_time_series_response stod stoull json symbol ticks clk
  = ((true, out), clk') ->
  exists block o h l c v r1 r2 r3 r4,
    let new := expected_ticks (fst (split_symbol symbol))
                 (snd (split_symbol symbol)) o h l c (wrap64 v)
                 (reading clk (reads clk)) r1 r2 r3 r4 in
    locate_data_block json = Some block
    /\ stod (extract_json_value block "1. open") = Some o
    /\ stod (extract_json_value block "4. close") = Some c
    /\ stoull (extract_json_value block "5. volume") = Some v
    /\ out = (ticks ++ new)%list
    /\ clk' = {| reading := reading clk;
                 reads := 1 + List.length new + reads clk |}.
Proof.
  unfold parse_time_series_response.
  destruct (empty json); [discriminate|].
  destruct (contains json "Error Message" || contains json "Invalid API call")%bool;
    [discriminate|].
  destruct (contains json "Thank you for using Alpha Vantage"
            && contains json "call frequency")%bool; [discriminate|].
  destruct (locate_data_block json) as [block|] eqn:Hb; [|discriminate].
  destruct (empty (extract_json_value block "1. open")
            || empty (extract_json_value block "4. close")
            || empty (extract_json_value block "5. volume"))%bool;
    [discriminate|].
  unfold convert_fields.
  destruct (stod (extract_json_value block "1. open")) as [o|] eqn:Ho;
    [|discriminate].
  destruct (stod (extract_json_value block "2. high")) as [h|] eqn:Hh;
    [|discriminate].
  destruct (stod (extract_json_value block "3. low")) as [l|] eqn:Hl;
    [|discriminate].
  destruct (stod (extract_json_value block "4. close")) as [c|] eqn:Hc;
    [|discriminate].
  destruct (stoull (extract_json_value block "5. volume")) as [v|] eqn:Hv;
    [|discriminate].
  unfold St.bind, St.ret.
  destruct (synthesize_ticks_run symbol o h l c (wrap64 v) ticks clk)
    as (r1 & r2 & r3 & r4 & Hs).
  cbv zeta in Hs. rewrite Hs. intros H. injection H as <- <-.
  exists block, o, h, l, c, v, r1, r2, r3, r4. cbv zeta.
  repeat split; assumption || reflexivity.
Qed.

(** The expected ticks are between two and four. *)
Lemma expected_ticks_length (sym exch : string) (o h l c : Double.double)
    (volume base r1 r2 r3 r4 : Z) :
  (2 <= List.length
          (expected_ticks sym exch o h l c volume base r1 r2 r3 r4) <= 4)%nat.
Proof.
  unfold expected_ticks.
  destruct (Double.neb h o); destruct (Double.neb l o && Double.neb l h)%bool;
    simpl; lia.
Qed.

(** X13: the return value tells what happened to the output vector and to
    the clock.  A call that returns [false], for whatever reason, leaves
    both as they were: nothing is appended and the clock is not read.  A
    call that returns [true] appended at least one tick and read the
    clock once for the timestamp and once more for each appended tick. *)
Theorem return_value_tells_whether_ticks_were_appended
    (json symbol : string) (ticks out : list TickData) (clk clk' : Clock)
    (parsed : bool) :
  parse_time_series_response stod stoull json symbol ticks clk
  = ((parsed, out), clk') ->
  if parsed
  then exists new : list TickData,
         out = (ticks ++ new)%list
         /\ (1 <= List.length new)%nat
         /\ reading clk' = reading clk
         /\ reads clk' = (1 + List.length new + reads clk)%nat
  else out = ticks /\ clk' = clk.
Proof.
  intros H. destruct parsed.
  - destruct (parse_success_run _ _ _ _ _ _ H)
      as (block & o & h & l & c & v & r1 & r2 & r3 & r4 & Hrun).
    cbv zeta in Hrun. destruct Hrun as (_ & _ & _ & _ & Hout & Hclk).
    eexists. split; [exact Hout|].
    pose proof (expected_ticks_length (fst (split_symbol symbol))
                  (snd (split_symbol symbol)) o h l c (wrap64 v)
                  (reading clk (reads clk)) r1 r2 r3 r4) as Hlen.
    rewrite Hclk. simpl reading. simpl reads.
    split; [lia|]. split; reflexivity.
  - exact (parse_failure_appends_nothing stod stoull _ _ _ _ _ _ H).
Qed.

(** What every expected tick carries. *)
Lemma expected_ticks_attributes (sym exch : string) (o h l c : Double.double)
    (volume base r1 r2 r3 r4 : Z) :
  Forall (fun t => symbol t = sym /\ exchange t = exch
                   /\ quantity t = volume / 4
                   /\ process_time_us t = 0
                   /\ (side t = "B"%char \/ side t = "S"%char))
    (expected_ticks sym exch o h l c volume base r1 r2 r3 r4).
Proof.
  unfold expected_ticks.
  destruct (Double.neb h o); destruct (Double.neb l o && Double.neb l h)%bool;
    destruct (Double.gtb c o); simpl;
    repeat (apply Forall_cons; [repeat split; auto|]); apply Forall_nil.
Qed.

Lemma expected_ticks_total (sym exch : string) (o h l c : Double.double)
    (volume base r1 r2 r3 r4 : Z) :
  0 <= volume ->
  2 * (volume / 4)
  <= total_quantity (expected_ticks sym exch o h l c volume base r1 r2 r3 r4)
  <= volume.
Proof.
  intros Hv. unfold expected_ticks, total_quantity.
  assert (H4 : 0 <= volume / 4) by (apply Z.div_pos; lia).
  assert (Hq : 4 * (volume / 4) <= volume)
    by (apply Z.mul_div_le; lia).
  set (q := volume / 4) in *.
  destruct (Double.neb h o); destruct (Double.neb l o && Double.neb l h)%bool;
    cbn [app map fold_right quantity set_timestamp_us make_tick]; lia.
Qed.

Lemma expected_ticks_timestamps (sym exch : string) (o h l c : Double.double)
    (volume base r1 r2 r3 r4 : Z) :
  timestamps (expected_ticks sym exch o h l c volume base r1 r2 r3 r4)
  = ([wrap64 base]
     ++ (if Double.neb h o then [wrap64 (base + 1)] else [])
     ++ (if (Double.neb l o && Double.neb l h)%bool
         then [wrap64 (base + 2)] else [])
     ++ [wrap64 (base + 3)])%list.
Proof.
  unfold expected_ticks, timestamps.
  destruct (Double.neb h o); destruct (Double.neb l o && Double.neb l h)%bool;
    reflexivity.
Qed.

(** X14: the ticks appended by a successful call all carry the two halves
    of the requested symbol, a quarter of the converted volume as
    quantity, side B or S and no processing time; their quantities add up
    to at least half of the volume and never to more than the volume. *)
Theorem appended_ticks_share_symbol_and_quantity (json symbol : string)
    (ticks out : list TickData) (clk clk' : Clock) :
  parse_time_series_response stod stoull json symbol ticks clk
  = ((true, out), clk') ->
  exists (new : list TickData) (block : string) (v : Z),
    out = (ticks ++ new)%list
    /\ locate_data_block json = Some block
    /\ stoull (extract_json_value block "5. volume") = Some v
    /\ Forall (fun t => (Tick.symbol t, exchange t) = split_symbol symbol
                        /\ quantity t = wrap64 v / 4
                        /\ process_time_us t = 0
                        /\ (side t = "B"%char \/ side t = "S"%char)) new
    /\ 2 * (wrap64 v / 4) <= total_quantity new <= wrap64 v.
Proof.
  intros H.
  destruct (parse_success_run _ _ _ _ _ _ H)
    as (block & o & h & l & c & v & r1 & r2 & r3 & r4 & Hrun).
  cbv zeta in Hrun. destruct Hrun as (Hb & _ & _ & Hv & Hout & _).
  eexists. exists block, v. split; [exact Hout|].
  split; [exact Hb|]. split; [exact Hv|]. split.
  - eapply Forall_impl; [|apply expected_ticks_attributes].
    intros t (Hs & He & Hq & Hp & Hside). cbv beta.
    rewrite Hs, He, Hq, Hp. rewrite <- surjective_pairing.
    repeat split; auto.
  - apply expected_ticks_total. apply wrap64_range.
Qed.

(** X15: the timestamps of the appended ticks start at the reading of the
    clock, end three microseconds later and increase strictly, whichever
    of the high and low ticks are present (readings below 2^64 - 3). *)
Theorem appended_timestamps_increase (json symbol : string)
    (ticks out : list TickData) (clk clk' : Clock) :
  parse_time_series_response stod stoull json symbol ticks clk
  = ((true, out), clk') ->
  0 <= reading clk (reads clk) ->
  reading clk (reads clk) + 3 < 2 ^ 64 ->
  exists new : list TickData,
    out = (ticks ++ new)%list
    /\ hd_error (timestamps new) = Some (reading clk (reads clk))
    /\ last (timestamps new) 0 = reading clk (reads clk) + 3
    /\ StronglySorted Z.lt (timestamps new).
Proof.
  intros H H0 H3.
  destruct (parse_success_run _ _ _ _ _ _ H)
    as (block & o & h & l & c & v & r1 & r2 & r3 & r4 & Hrun).
  cbv zeta in Hrun. destruct Hrun as (_ & _ & _ & _ & Hout & _).
  eexists. split; [exact Hout|].
  rewrite expected_ticks_timestamps.
  rewrite !wrap64_small by (unfold two64; lia).
  destruct (Double.neb h o); destruct (Double.neb l o && Double.neb l h)%bool;
    cbn [app hd_error last];
    (split; [reflexivity|]); (split; [reflexivity|]);
    repeat (constructor; [|repeat constructor; lia]); constructor.
Qed.

End WithNumericConversions.

(** The daily response parses. *)
Lemma scenario_parse :
  parse_time_series_response Fixture.stod Fixture.stoull
    Fixture.daily_response "RELIANCE.BSE" [] scenario_clock
  = ((true, scenario_ticks), scenario_clock_after).
Proof.
  unfold scenario_ticks, scenario_clock_after, St.eval, St.exec.
  assert (Hb : fst (fst (parse_time_series_response Fixture.stod
                           Fixture.stoull Fixture.daily_response
                           "RELIANCE.BSE" [] scenario_clock)) = true)
    by (vm_compute; reflexivity).
  destruct (parse_time_series_response Fixture.stod Fixture.stoull
              Fixture.daily_response "RELIANCE.BSE" [] scenario_clock)
    as [[b t] c].
  simpl in Hb. subst b. reflexivity.
Qed.

Lemma return_value_tells_whether_ticks_were_appended_witness :
  exists new : list TickData,
    scenario_ticks = ([] ++ new)%list
    /\ (1 <= List.length new)%nat
    /\ reading scenario_clock_after = reading scenario_clock
    /\ reads scenario_clock_after
       = (1 + List.length new + reads scenario_clock)%nat.
Proof.
  apply (return_value_tells_whether_ticks_were_appended Fixture.stod
           Fixture.stoull Fixture.daily_response "RELIANCE.BSE" []
           scenario_ticks scenario_clock scenario_clock_after true).
  exact scenario_parse.
Defined.

Lemma appended_ticks_share_symbol_and_quantity_witness :
  exists (new : list TickData) (block : string) (v : Z),
    scenario_ticks = ([] ++ new)%list
    /\ locate_data_block Fixture.daily_response = Some block
    /\ Fixture.stoull (extract_json_value block "5. volume") = Some v
    /\ Forall (fun t => (Tick.symbol t, exchange t)
                        = split_symbol "RELIANCE.BSE"
                        /\ quantity t = wrap64 v / 4
                        /\ process_time_us t = 0
                        /\ (side t = "B"%char \/ side t = "S"%char)) new
    /\ 2 * (wrap64 v / 4) <= total_quantity new <= wrap64 v.
Proof.
  apply (appended_ticks_share_symbol_and_quantity Fixture.stod
           Fixture.stoull Fixture.daily_response "RELIANCE.BSE" []
           scenario_ticks scenario_clock scenario_clock_after).
  exact scenario_parse.
Defined.

Lemma appended_timestamps_increase_witness :
  exists new : list TickData,
    scenario_ticks = ([] ++ new)%list
    /\ hd_error (timestamps new) = Some 1700000000000000
    /\ last (timestamps new) 0 = 1700000000000000 + 3
    /\ StronglySorted Z.lt (timestamps new).
Proof.
  apply (appended_timestamps_increase Fixture.stod Fixture.stoull
           Fixture.daily_response "RELIANCE.BSE" []
           scenario_ticks scenario_clock scenario_clock_after).
  - exact scenario_parse.
  - vm_compute. discriminate.
  - vm_compute. reflexivity.
Defined.

End ParserRunFacts.

(* ================================================================== *)
(** * Properties: the symbol split and the located entry *)

Module ParserShapeFacts.

Import Spec Cpp Tick Extractor Chrono Parser CppFacts StringFacts.

(** The first occurrence of a character splits the string around it. *)
Lemma find_char_split (s : string) (c : ascii) (n : nat) :
  find_char s c 0 = Some n ->
  exists pre post,
    s = pre ++ String c post /\ String.length pre = n
    /\ ~ occurs (String c EmptyString) pre.
Proof.
  unfold find_char. intros H.
  destruct (index0_some _ _ _ H) as [(pre & post & Heq & Hlen) Hmin].
  exists pre, post. split; [exact Heq|]. split; [exact Hlen|].
  intros (a & b & Hab).
  assert (Hocc : occurs_at (String.length a) (String c EmptyString) s).
  { exists a, (b ++ String c post). split; [|reflexivity].
    rewrite Heq, Hab. rewrite !append_assoc. reflexivity. }
  apply Hmin in Hocc.
  rewrite <- Hlen, Hab, !length_append in Hocc. simpl in Hocc. lia.
Qed.

(** X16: [split_symbol] cuts the symbol at its first dot: putting the two
    halves back around a dot gives the symbol again, and the first half
    holds no dot; a symbol without a dot is kept whole and given the
    exchange BSE. *)
Theorem split_symbol_round_trip (symbol : string) :
  (occurs "." symbol ->
   symbol = fst (split_symbol symbol) ++ "." ++ snd (split_symbol symbol)
   /\ ~ occurs "." (fst (split_symbol symbol)))
  /\ (~ occurs "." symbol -> split_symbol symbol = (symbol, "BSE")).
Proof.
  unfold split_symbol.
  destruct (find_char symbol "." 0) as [n|] eqn:Hf.
  - destruct (find_char_split _ _ _ Hf) as (pre & post & Heq & Hlen & Hno).
    split.
    + intros _. cbn [fst snd]. unfold substr, substr_from.
      assert (E1 : substring 0 n symbol = pre).
      { rewrite Heq, <- Hlen. apply substring_prefix. }
      assert (E2 : substring (S n) (String.length symbol - S n) symbol = post).
      { assert (Hs : symbol = (pre ++ ".") ++ post)
          by (rewrite append_assoc; exact Heq).
        assert (HL : String.length (pre ++ ".") = S n)
          by (rewrite length_append; simpl; lia).
        rewrite Hs, <- HL, substring_skip, length_append.
        replace (String.length (pre ++ ".") + String.length post
                 - String.length (pre ++ "."))%nat
          with (String.length post) by lia.
        apply substring_all. }
      rewrite E1, E2. split; [exact Heq|exact Hno].
    + intros Hnone. exfalso. apply Hnone. exists pre, post. exact Heq.
  - split; [|reflexivity].
    intros Hocc. exfalso. exact (index0_none _ _ Hf Hocc).
Qed.

(** A search from offset [n] is a search in what follows the first [n]
    characters. *)
Lemma index_from (p : string) (n : nat) :
  forall (s : string) (m : nat),
    index n p s = Some m ->
    exists pre rest k,
      s = pre ++ rest /\ String.length pre = n
      /\ index 0 p rest = Some k /\ m = (n + k)%nat.
Proof.
  induction n as [|n IH]; intros s m H.
  - exists EmptyString, s, m. repeat split. exact H.
  - destruct s as [|c s]; [discriminate|].
    cbn [index] in H.
    destruct (index n p s) as [j|] eqn:Hj; [|discriminate].
    injection H as <-.
    destruct (IH s j Hj) as (pre & rest & k & Heq & Hlen & Hk & Hm).
    exists (String c pre), rest, k. simpl. rewrite <- Heq, Hlen, Hm.
    repeat split. exact Hk.
Qed.

Lemma append_inv_length (a c : string) :
  forall b d : string,
    a ++ b = c ++ d -> String.length a = String.length c -> a = c /\ b = d.
Proof.
  revert c. induction a as [|x a IH]; intros [|y c] b d H Hlen;
    try discriminate.
  - split; [reflexivity|exact H].
  - simpl in H, Hlen. injection H as -> H. injection Hlen as Hlen.
    destruct (IH c b d H Hlen) as [-> ->]. split; reflexivity.
Qed.

(** X17: the entry that [locate_data_block] hands to the extractor is one
    piece of the response: an opening brace, a body without any closing
    brace, and the closing brace that follows it. *)
Theorem located_block_is_one_braced_entry (json block : string) :
  locate_data_block json = Some block ->
  exists pre body post,
    json = pre ++ "{" ++ body ++ "}" ++ post
    /\ block = "{" ++ body ++ "}"
    /\ ~ occurs "}" body.
Proof.
  unfold locate_data_block, find.
  destruct (index 0 _ json) as [tsp|]; [|discriminate].
  destruct (index tsp _ json) as [ds|]; [|discriminate].
  destruct (index (S ds) quote json) as [de|]; [|discriminate].
  destruct (index de "{" json) as [s0|] eqn:H4; [|discriminate].
  destruct (index s0 "}" json) as [e0|] eqn:H5; [|discriminate].
  intros H. injection H as <-.
  destruct (index_from _ _ _ _ H4)
    as (pre0 & rest0 & k0 & Hj0 & Hl0 & Hk0 & Hs0).
  destruct (find_char_split rest0 "{" k0 Hk0)
    as (a & b & Hrest0 & Hla & _).
  destruct (index_from _ _ _ _ H5)
    as (pre1 & rest1 & k & Hj1 & Hl1 & Hk & He0).
  assert (Hj : json = (pre0 ++ a) ++ String "{" b).
  { rewrite append_assoc, <- Hrest0. exact Hj0. }
  assert (HP : String.length (pre0 ++ a) = s0)
    by (rewrite length_append; lia).
  destruct (append_inv_length pre1 (pre0 ++ a) rest1 (String "{" b))
    as [-> ->]; [congruence|lia|].
  rewrite index0_cons in Hk.
  change (prefix "}" (String "{" b)) with false in Hk.
  destruct (index 0 "}" b) as [k'|] eqn:Hk'; [|discriminate].
  injection Hk as <-.
  destruct (find_char_split b "}" k' Hk')
    as (body & post & Hb & Hlb & Hno).
  exists (pre0 ++ a), body, post.
  assert (Hjson : json = (pre0 ++ a) ++ ("{" ++ body ++ "}") ++ post).
  { rewrite Hj, Hb. rewrite !append_assoc. reflexivity. }
  split; [rewrite Hjson, !append_assoc; reflexivity|].
  split; [|exact Hno].
  unfold substr. rewrite Hjson at 1. rewrite <- HP at 1.
  rewrite substring_skip.
  replace (e0 - s0 + 1)%nat with (String.length ("{" ++ body ++ "}")).
  - apply substring_prefix.
  - simpl. rewrite length_append. simpl. lia.
Qed.

Lemma located_block_is_one_braced_entry_witness :
  exists pre body post,
    Fixture.daily_response = pre ++ "{" ++ body ++ "}" ++ post
    /\ scenario_block = "{" ++ body ++ "}"
    /\ ~ occurs "}" body.
Proof.
  apply (located_block_is_one_braced_entry Fixture.daily_response
           scenario_block).
  vm_compute. reflexivity.
Defined.

End ParserShapeFacts.

(* ================================================================== *)
(** * Properties: from a response to the writer *)

Module PipelineFacts.

Import Spec Cpp Tick Chrono Parser Writer Pipeline.
Import CppFacts StringFacts ParserFacts WriterRunFacts.

(** The line of a tick does not show when it was received or processed. *)
Lemma to_ilp_format_stamps (t : TickData) (r p : Z) :
  to_ilp_format (set_process_time_us (set_receive_time_us t r) p)
  = to_ilp_format t.
Proof. reflexivity. Qed.

(** [write_tick] uses nothing of the tick but its line. *)
Lemma write_tick_line (t1 t2 : TickData) (x : World) :
  to_ilp_format t1 = to_ilp_format t2 -> write_tick t1 x = write_tick t2 x.
Proof.
  intros H. destruct x as [w env]. unfold write_tick. rewrite H. reflexivity.
Qed.

(** One call of the callback. *)
Lemma on_tick_run (t : TickData) (r : Z) (a : App) :
  on_tick (set_receive_time_us t r) a
  = (tt, {| clock := {| reading := reading (clock a);
                        reads := S (reads (clock a)) |};
            world := St.exec (write_tick t) (world a);
            ticks_received := wrap64 (ticks_received a + 1);
            ticks_written := wrap64 (ticks_written a + 1) |}).
Proof.
  unfold on_tick, now, St.exec.
  rewrite (write_tick_line _ t (world a))
    by (apply to_ilp_format_stamps).
  destruct (write_tick t (world a)) as [u x]. reflexivity.
Qed.

(** One round of the delivery loop with that callback. *)
Lemma deliver_ticks_cons (t : TickData) (rest : list TickData) (a : App) :
  deliver_ticks (Some on_tick) (t :: rest) a
  = deliver_ticks (Some on_tick) rest
      {| clock := {| reading := reading (clock a);
                     reads := S (S (reads (clock a))) |};
         world := St.exec (write_tick t) (world a);
         ticks_received := wrap64 (ticks_received a + 1);
         ticks_written := wrap64 (ticks_written a + 1) |}.
Proof.
  cbn [deliver_ticks]. unfold now. cbn [invoke_callback].
  rewrite on_tick_run. reflexivity.
Qed.

Lemma wrap64_succ_add (z : Z) (n : nat) :
  wrap64 (wrap64 (z + 1) + Z.of_nat n) = wrap64 (z + Z.of_nat (S n)).
Proof.
  unfold wrap64. rewrite Zplus_mod_idemp_l. f_equal. lia.
Qed.

(** The delivery loop hands every tick to the writer, in order, and
    counts it twice. *)
Lemma deliver_ticks_run (ticks : list TickData) :
  forall a : App,
    0 <= ticks_received a < two64 -> 0 <= ticks_written a < two64 ->
    let a' := St.exec (deliver_ticks (Some on_tick) ticks) a in
    world a' = St.exec (write_ticks ticks) (world a)
    /\ reading (clock a') = reading (clock a)
    /\ reads (clock a') = (2 * List.length ticks + reads (clock a))%nat
    /\ ticks_received a'
       = wrap64 (ticks_received a + Z.of_nat (List.length ticks))
    /\ ticks_written a'
       = wrap64 (ticks_written a + Z.of_nat (List.length ticks)).
Proof.
  induction ticks as [|t rest IH]; intros a Hr Hw; cbv zeta.
  - unfold St.exec. simpl. rewrite !Z.add_0_r, !wrap64_small by assumption.
    repeat split.
  - replace (St.exec (deliver_ticks (Some on_tick) (t :: rest)) a)
      with (St.exec (deliver_ticks (Some on_tick) rest)
              {| clock := {| reading := reading (clock a);
                             reads := S (S (reads (clock a))) |};
                 world := St.exec (write_tick t) (world a);
                 ticks_received := wrap64 (ticks_received a + 1);
                 ticks_written := wrap64 (ticks_written a + 1) |})
      by (unfold St.exec at 1 3; now rewrite deliver_ticks_cons).
    match goal with
    | |- context [St.exec (deliver_ticks _ rest) ?b] =>
        destruct (IH b) as (H1 & H2 & H3 & H4 & H5);
          [apply wrap64_range|apply wrap64_range|]
    end.
    cbv zeta in H1, H2, H3, H4, H5.
    cbn [clock world ticks_received ticks_written reading reads]
      in H1, H2, H3, H4, H5.
    rewrite H1, H2, H3, H4, H5.
    rewrite !wrap64_succ_add.
    rewrite <- exec_write_ticks_cons.
    cbn [List.length]. repeat split. lia.
Qed.

Section WithNumericConversions.

Variable stod : string -> option Double.double.
Variable stoull : string -> option Z.

(** A response that parses is not empty. *)
Lemma parsed_not_empty (response symbol : string) (ticks out : list TickData)
    (clk clk' : Clock) :
  parse_time_series_response stod stoull response symbol ticks clk
  = ((true, out), clk') ->
  empty response = false.
Proof.
  unfold parse_time_series_response.
  destruct (empty response); [discriminate|reflexivity].
Qed.

(** X18: when a response parses, the pipeline hands the ILP lines of the
    parsed ticks to the writer in the order of the vector: with a
    connected, running writer the text sent or pending afterwards is the
    text before followed by those lines.  The lines are those of the
    ticks as parsed; the receive and process times stamped on the way do
    not show in them. *)
Theorem parsed_ticks_reach_the_writer_in_order (response symbol : string)
    (ticks : list TickData) (clk' : Clock) (a : App) :
  parse_time_series_response stod stoull response symbol [] (clock a)
  = ((true, ticks), clk') ->
  0 <= ticks_received a < two64 -> 0 <= ticks_written a < two64 ->
  running_ (fst (world a)) = true -> 0 <= socket_fd_ (fst (world a)) ->
  let a' :=
    St.exec (handle_response stod stoull (Some on_tick) response symbol) a in
  wire_text (world a')
  = wire_text (world a) ++ join_lines (lines_of ticks)
  /\ ticks_received a'
     = wrap64 (ticks_received a + Z.of_nat (List.length ticks)).
Proof.
  intros Hp Hr Hw Hrun Hfd. cbv zeta.
  unfold St.exec, handle_response.
  rewrite (parsed_not_empty _ _ _ _ _ _ Hp). cbn [negb]. rewrite Hp.
  destruct (deliver_ticks_run ticks (with_clock a clk'))
    as (H1 & _ & _ & H4 & _); [exact Hr|exact Hw|].
  unfold St.exec in H1, H4. cbn [with_clock world ticks_received] in H1, H4.
  rewrite H1, H4. split; [|reflexivity].
  apply write_ticks_wire; assumption.
Qed.

(** X19: a response that is empty or that the parser rejects changes
    nothing: whatever callback is installed, it is not invoked, the clock
    is not read, and the writer and the counters stay as they are. *)
Theorem rejected_response_changes_nothing (cb : TickCallback)
    (response symbol : string) (a : App) :
  response = EmptyString
  \/ fst (St.eval
            (parse_time_series_response stod stoull response symbol [])
            (clock a)) = false ->
  handle_response stod stoull cb response symbol a = (tt, a).
Proof.
  intros [->|H]; [reflexivity|].
  unfold handle_response. destruct (empty response); [reflexivity|].
  cbn [negb]. unfold St.eval in H.
  destruct (parse_time_series_response stod stoull response symbol []
              (clock a)) as [[parsed out] clk'] eqn:Hp.
  cbn [fst] in H. subst parsed.
  destruct (parse_failure_appends_nothing stod stoull _ _ _ _ _ _ Hp)
    as [_ ->].
  destruct a. reflexivity.
Qed.

End WithNumericConversions.

(** X20: the callback counts a tick as written whether or not the writer
    took it: after any delivery the two counters of [main] are equal,
    and on a writer that is not running they advance although nothing
    is written. *)
Theorem written_counter_follows_received (ticks : list TickData) (a : App) :
  0 <= ticks_received a < two64 ->
  ticks_written a = ticks_received a ->
  let a' := St.exec (deliver_ticks (Some on_tick) ticks) a in
  ticks_written a' = ticks_received a'
  /\ ticks_received a'
     = wrap64 (ticks_received a + Z.of_nat (List.length ticks))
  /\ (running_ (fst (world a)) = false -> world a' = world a).
Proof.
  intros Hr Heq. cbv zeta.
  destruct (deliver_ticks_run ticks a) as (H1 & _ & _ & H4 & H5);
    [exact Hr|rewrite Heq; exact Hr|].
  cbv zeta in H1, H4, H5. rewrite H1, H4, H5, Heq.
  split; [reflexivity|]. split; [reflexivity|].
  intros Hoff. now apply not_running_inert.
Qed.

Lemma parsed_ticks_reach_the_writer_in_order_witness :
  wire_text
    (world (St.exec
              (handle_response Fixture.stod Fixture.stoull (Some on_tick)
                 Fixture.daily_response "RELIANCE.BSE")
              scenario_app))
  = wire_text (world scenario_app) ++ join_lines (lines_of scenario_ticks)
  /\ ticks_received
       (St.exec
          (handle_response Fixture.stod Fixture.stoull (Some on_tick)
             Fixture.daily_response "RELIANCE.BSE")
          scenario_app)
     = wrap64 (ticks_received scenario_app
               + Z.of_nat (List.length scenario_ticks)).
Proof.
  apply (parsed_ticks_reach_the_writer_in_order Fixture.stod Fixture.stoull
           Fixture.daily_response "RELIANCE.BSE" scenario_ticks
           scenario_clock_after scenario_app).
  - exact ParserRunFacts.scenario_parse.
  - vm_compute. split; [discriminate|reflexivity].
  - vm_compute. split; [discriminate|reflexivity].
  - reflexivity.
  - vm_compute. discriminate.
Defined.

Lemma rejected_response_changes_nothing_witness :
  handle_response Fixture.stod Fixture.stoull (Some on_tick)
    Fixture.error_response "RELIANCE.BSE" scenario_app
  = (tt, scenario_app).
Proof.
  apply (rejected_response_changes_nothing Fixture.stod Fixture.stoull
           (Some on_tick) Fixture.error_response "RELIANCE.BSE"
           scenario_app).
  right. vm_compute. reflexivity.
Defined.

Lemma written_counter_follows_received_witness :
  ticks_written (St.exec (deliver_ticks (Some on_tick) scenario_ticks) idle_app)
  = ticks_received
      (St.exec (deliver_ticks (Some on_tick) scenario_ticks) idle_app)
  /\ ticks_received
       (St.exec (deliver_ticks (Some on_tick) scenario_ticks) idle_app)
     = wrap64 (0 + Z.of_nat (List.length scenario_ticks))
  /\ world (St.exec (deliver_ticks (Some on_tick) scenario_ticks) idle_app)
     = world idle_app.
Proof.
  destruct (written_counter_follows_received scenario_ticks idle_app)
    as (H1 & H2 & H3).
  - vm_compute. split; [discriminate|reflexivity].
  - reflexivity.
  - split; [exact H1|]. split; [exact H2|]. apply H3. reflexivity.
Defined.

End PipelineFacts.

(* ================================================================== *)
(** * Properties: the list of symbols *)

Module SymbolListFacts.

Import Spec Cpp Client.

Lemma existsb_eqb_In (symbol : string) (symbols : list string) :
  existsb (String.eqb symbol) symbols = true <-> In symbol symbols.
Proof.
  rewrite existsb_exists. split.
  - intros (x & Hin & Heq). apply String.eqb_eq in Heq. now subst x.
  - intros Hin. exists symbol. split; [exact Hin|apply String.eqb_refl].
Qed.

(** X21: [add_symbol] keeps a list of distinct symbols distinct, only
    ever appends at the end, leaves the symbol in the list, and a second
    call with the same symbol does nothing. *)
Theorem add_symbol_keeps_symbols_distinct (symbol : string)
    (symbols : list string) :
  NoDup symbols ->
  NoDup (add_symbol symbol symbols)
  /\ In symbol (add_symbol symbol symbols)
  /\ (exists tail, add_symbol symbol symbols = (symbols ++ tail)%list)
  /\ add_symbol symbol (add_symbol symbol symbols)
     = add_symbol symbol symbols.
Proof.
  intros Hnd.
  destruct (existsb (String.eqb symbol) symbols) eqn:E.
  - assert (Hadd : add_symbol symbol symbols = symbols)
      by (unfold add_symbol; now rewrite E).
    rewrite !Hadd.
    split; [exact Hnd|]. split; [now apply existsb_eqb_In|].
    split; [exists []; now rewrite app_nil_r|reflexivity].
  - assert (Hadd : add_symbol symbol symbols = (symbols ++ [symbol])%list)
      by (unfold add_symbol, push_back; now rewrite E).
    assert (Hnot : ~ In symbol symbols).
    { intros Hin. apply existsb_eqb_In in Hin. congruence. }
    assert (Hin : In symbol (symbols ++ [symbol]))
      by (apply in_or_app; right; now left).
    rewrite !Hadd. split.
    + apply (NoDup_Add (a := symbol) (l := symbols)).
      * rewrite <- (app_nil_r symbols) at 1. apply Add_app.
      * split; assumption.
    + split; [exact Hin|]. split; [now exists [symbol]|].
      apply existsb_eqb_In in Hin. unfold add_symbol. now rewrite Hin.
Qed.

Lemma add_symbol_keeps_symbols_distinct_witness :
  NoDup (add_symbol "INFY.BSE" default_symbols)
  /\ In "INFY.BSE" (add_symbol "INFY.BSE" default_symbols)
  /\ (exists tail,
        add_symbol "INFY.BSE" default_symbols
        = (default_symbols ++ tail)%list)
  /\ add_symbol "INFY.BSE" (add_symbol "INFY.BSE" default_symbols)
     = add_symbol "INFY.BSE" default_symbols.
Proof.
  apply (add_symbol_keeps_symbols_distinct "INFY.BSE" default_symbols).
  unfold default_symbols. constructor.
  - simpl. intros [H|[]]. discriminate.
  - constructor; [intros []|constructor].
Defined.

End SymbolListFacts.
